(** * LiveSession: capture, playback scheduling, interruption and teardown

    A shallow embedding of [src/components/LiveSession.tsx].  The React
    component is a bundle of state cells ([useState]), mutable references
    ([useRef]) and callbacks that the browser and the session transport call
    on one event loop.  Each callback is embedded as a computation in a small
    state-and-exception monad over the record [Session]; the browser objects
    the callbacks touch (audio contexts, media tracks, timers, buffer source
    nodes, the outbound channel) are kept in the [Browser] part of that
    record.  Times and sample values are JavaScript numbers and are embedded
    as exact rationals: what is stated of them uses their order, [Math.max]
    and the sums the code itself forms, never the decimal value of a sum. *)

From Stdlib Require Import QArith Qround Lqa Lia String.
From stdpp Require Import base list.

Local Open Scope Q_scope.

(* ===================================================================== *)
(** ** JavaScript numbers *)

Module JsMath.

(** [Math.max(a, b)] and [Math.min(a, b)] on two numbers. *)
Definition max (a b : Q) : Q := if Qle_bool a b then b else a.
Definition min (a b : Q) : Q := if Qle_bool a b then a else b.

End JsMath.

(* ===================================================================== *)
(** ** Data model *)

(** [type ConnectionStatus = 'disconnected' | 'connecting' | 'connected' | 'error'] *)
Inductive ConnectionStatus := disconnected | connecting | connected | error.

(** A thrown JavaScript value: the error's name and its [message]. *)
Record JsError := { err_name : string; err_message : string }.

Definition InvalidStateError : JsError :=
  {| err_name := "InvalidStateError"; err_message := "cannot call stop without calling start first" |}.
Definition RangeError : JsError :=
  {| err_name := "RangeError"; err_message := "The start time provided is negative" |}.
Definition TypeError : JsError :=
  {| err_name := "TypeError"; err_message := "parameter 1 is not of type AudioNode" |}.

(** How a statement completes: normally with a value, or by throwing. *)
Inductive Completion (A : Type) :=
| Normal (a : A)
| Throw (e : JsError).
Arguments Normal {A} a.
Arguments Throw {A} e.

(** A window of capture samples (the [Float32Array] of channel 0). *)
Definition SampleWindow := list Q.

(** The object [createPcmBlob] returns: payload and format tag. *)
Record PcmBlob := { blob_data : string; blob_mimeType : string }.

(** What [session.sendRealtimeInput] is given. *)
Inductive Media :=
| AudioMedia (b : PcmBlob)
| ImageMedia (mimeType data : string).

(** A Web Audio [AudioBuffer]: its frame count and sample rate.  Its
    [duration] attribute is the frame count over the rate. *)
Record AudioBuffer := { ab_length : N; ab_sampleRate : positive }.

Definition ab_duration (b : AudioBuffer) : Q :=
  Z.of_N (ab_length b) # ab_sampleRate b.

(** An [AudioBufferSourceNode] (a playback handle): the buffer it plays,
    the time [start] was called with, and whether [stop] was called. *)
Record SourceNode := {
  node_buffer : AudioBuffer;
  node_startedAt : option Q;
  node_stopped : bool
}.

(** The part of a render's scope that the callbacks created by
    [startSession] close over: the values of the [isMuted] and
    [isVideoEnabled] constants of the render in which [startSession] was
    defined.  (Refs, state setters and [stopSession] are the same objects
    in every render.) *)
Record Scope := { scope_isMuted : bool; scope_isVideoEnabled : bool }.

(** The [ScriptProcessorNode] with the scope of its [onaudioprocess]. *)
Record ScriptProcessor := { sp_id : nat; sp_scope : Scope }.

(** A [MediaStream]: the ids of its tracks. *)
Record MediaStream := { stream_tracks : list nat }.

(** The [useState] cells. *)
Record ReactState := {
  status : ConnectionStatus;
  errorMsg : option string;
  isMuted : bool;
  isVideoEnabled : bool;
  volumeLevel : Q
}.

(** The [useRef] cells.  [sourcesRef] holds a JavaScript [Set] of nodes,
    which iterates in insertion order: a duplicate-free list of node ids. *)
Record Refs := {
  inputAudioContextRef : option nat;
  outputAudioContextRef : option nat;
  streamRef : option MediaStream;
  processorRef : option ScriptProcessor;
  nextStartTimeRef : Q;
  videoIntervalRef : option positive;
  gainNodeRef : option nat;
  sessionPromiseRef : option nat;
  sourcesRef : list nat
}.

(** The browser objects the component acts on. *)
Record Browser := {
  closedContexts : list nat;          (* contexts on which [close] was called *)
  stoppedTracks : list nat;           (* tracks on which [stop] was called *)
  disconnectedNodes : list nat;       (* processors that were disconnected *)
  timers : list (positive * Scope);   (* running intervals and their scope *)
  nextTimer : positive;               (* the id [setInterval] returns next *)
  nodes : list SourceNode;            (* every source node created; id = index *)
  callbacks : option Scope;           (* callbacks given to [ai.live.connect] *)
  outbox : list Media                 (* media submitted to the channel *)
}.

Record Session := { react : ReactState; refs : Refs; browser : Browser }.

(** *** Field updates *)

Definition set_status v '(Build_ReactState _ b c d e) := Build_ReactState v b c d e.
Definition set_errorMsg v '(Build_ReactState a _ c d e) := Build_ReactState a v c d e.
Definition set_isMuted v '(Build_ReactState a b _ d e) := Build_ReactState a b v d e.
Definition set_isVideoEnabled v '(Build_ReactState a b c _ e) := Build_ReactState a b c v e.
Definition set_volumeLevel v '(Build_ReactState a b c d _) := Build_ReactState a b c d v.

Definition set_inputAudioContextRef v '(Build_Refs _ b c d e f g h i) := Build_Refs v b c d e f g h i.
Definition set_outputAudioContextRef v '(Build_Refs a _ c d e f g h i) := Build_Refs a v c d e f g h i.
Definition set_streamRef v '(Build_Refs a b _ d e f g h i) := Build_Refs a b v d e f g h i.
Definition set_processorRef v '(Build_Refs a b c _ e f g h i) := Build_Refs a b c v e f g h i.
Definition set_nextStartTimeRef v '(Build_Refs a b c d _ f g h i) := Build_Refs a b c d v f g h i.
Definition set_videoIntervalRef v '(Build_Refs a b c d e _ g h i) := Build_Refs a b c d e v g h i.
Definition set_gainNodeRef v '(Build_Refs a b c d e f _ h i) := Build_Refs a b c d e f v h i.
Definition set_sessionPromiseRef v '(Build_Refs a b c d e f g _ i) := Build_Refs a b c d e f g v i.
Definition set_sourcesRef v '(Build_Refs a b c d e f g h _) := Build_Refs a b c d e f g h v.

Definition set_closedContexts v '(Build_Browser _ b c d e f g h) := Build_Browser v b c d e f g h.
Definition set_stoppedTracks v '(Build_Browser a _ c d e f g h) := Build_Browser a v c d e f g h.
Definition set_disconnectedNodes v '(Build_Browser a b _ d e f g h) := Build_Browser a b v d e f g h.
Definition set_timers v '(Build_Browser a b c _ e f g h) := Build_Browser a b c v e f g h.
Definition set_nextTimer v '(Build_Browser a b c d _ f g h) := Build_Browser a b c d v f g h.
Definition set_nodes v '(Build_Browser a b c d e _ g h) := Build_Browser a b c d e v g h.
Definition set_callbacks v '(Build_Browser a b c d e f _ h) := Build_Browser a b c d e f v h.
Definition set_outbox v '(Build_Browser a b c d e f g _) := Build_Browser a b c d e f g v.

Definition on_react (f : ReactState -> ReactState) (s : Session) : Session :=
  {| react := f (react s); refs := refs s; browser := browser s |}.
Definition on_refs (f : Refs -> Refs) (s : Session) : Session :=
  {| react := react s; refs := f (refs s); browser := browser s |}.
Definition on_browser (f : Browser -> Browser) (s : Session) : Session :=
  {| react := react s; refs := refs s; browser := f (browser s) |}.

(* ===================================================================== *)
(** ** The monad of callbacks

    A callback body runs against the session and either completes or
    throws; what it wrote before throwing stays written. *)

Definition M (A : Type) : Type := Session -> Completion A * Session.

Definition ret {A} (a : A) : M A := fun s => (Normal a, s).
Definition throw {A} (e : JsError) : M A := fun s => (Throw e, s).
Definition bind {A B} (m : M A) (k : A -> M B) : M B :=
  fun s => match m s with
           | (Normal a, s') => k a s'
           | (Throw e, s') => (Throw e, s')
           end.
(** [try { m } catch (e) { h e }] *)
Definition try_catch {A} (m : M A) (h : JsError -> M A) : M A :=
  fun s => match m s with
           | (Normal a, s') => (Normal a, s')
           | (Throw e, s') => h e s'
           end.
Definition gets {A} (f : Session -> A) : M A := fun s => (Normal (f s), s).
Definition modify (f : Session -> Session) : M unit := fun s => (Normal tt, f s).
Definition lift {A} (c : Completion A) : M A := fun s => (c, s).

Declare Scope js_scope.
Delimit Scope js_scope with js.
Notation "x <- m ;; k" := (bind m (fun x => k))
  (at level 100, m at next level, right associativity) : js_scope.
Notation "m ;; k" := (bind m (fun _ => k))
  (at level 100, right associativity) : js_scope.
Local Open Scope js_scope.

(** [xs.forEach(f)]: stops at the first call that throws. *)
Fixpoint forEach {A} (xs : list A) (f : A -> M unit) : M unit :=
  match xs with
  | [] => ret tt
  | x :: xs' => f x ;; forEach xs' f
  end.

(** The state a computation leaves, and whether it completed normally. *)
Definition exec {A} (m : M A) (s : Session) : Session := snd (m s).
Definition returns {A} (m : M A) (s : Session) : Prop :=
  exists a, fst (m s) = Normal a.

(* ===================================================================== *)
(** ** What the component imports

    [../utils/audioUtils] and [../constants] are imported by the component;
    the callbacks are embedded over any implementation of them.
    [decodeAudioData] returns a promise: its [Completion] is how that promise
    settles. *)

Class AudioUtils := {
  createPcmBlob : SampleWindow -> PcmBlob;
  base64ToBytes : string -> Completion (list Byte.byte);
  decodeAudioData : list Byte.byte -> nat -> positive -> Completion AudioBuffer;
  AUDIO_OUTPUT_SAMPLE_RATE : positive;
  Math_sqrt : Q -> Q
}.

(** [message.serverContent?.modelTurn?.parts?.[0]?.inlineData?.data] and
    [message.serverContent?.interrupted]. *)
Record LiveServerMessage := {
  msg_data : option string;
  msg_interrupted : bool
}.

(** A string in a condition: [undefined] and the empty string are falsy. *)
Definition truthy (o : option string) : option string :=
  match o with
  | Some EmptyString => None
  | other => other
  end.

(** [e.message || fallback] *)
Definition message_or (e : JsError) (fallback : string) : string :=
  match err_message e with
  | EmptyString => fallback
  | m => m
  end.

(* --------------------------------------------------------------------- *)
(** *** Browser operations *)

Definition clearInterval (id : positive) : M unit :=
  modify (on_browser (fun b =>
    set_timers (filter (fun t => t.1 <> id) (timers b)) b)).

Definition setInterval (sc : Scope) : M positive :=
  id <- gets (fun s => nextTimer (browser s)) ;;
  modify (on_browser (fun b =>
    set_nextTimer (Pos.succ id) (set_timers (timers b ++ [(id, sc)]) b))) ;;
  ret id.

Definition processor_disconnect (p : ScriptProcessor) : M unit :=
  modify (on_browser (fun b => set_disconnectedNodes (disconnectedNodes b ++ [sp_id p]) b)).

Definition context_close (c : nat) : M unit :=
  modify (on_browser (fun b => set_closedContexts (closedContexts b ++ [c]) b)).

Definition track_stop (t : nat) : M unit :=
  modify (on_browser (fun b => set_stoppedTracks (stoppedTracks b ++ [t]) b)).

(** [sessionPromiseRef.current?.then(session => session.sendRealtimeInput(m))]:
    the media is handed to the channel; the caller swallows a failure. *)
Definition send (m : Media) : M unit :=
  modify (on_browser (fun b => set_outbox (outbox b ++ [m]) b)).

(** [ctx.createBufferSource()] followed by [source.buffer = audioBuffer]:
    the new node's id is its index in [nodes]. *)
Definition createBufferSource (buf : AudioBuffer) : M nat :=
  id <- gets (fun s => length (nodes (browser s))) ;;
  modify (on_browser (fun b =>
    set_nodes (nodes b ++ [{| node_buffer := buf; node_startedAt := None;
                              node_stopped := false |}]) b)) ;;
  ret id.

(** [source.connect(gainNodeRef.current)]: a [null] destination throws. *)
Definition source_connect (id : nat) (dest : option nat) : M unit :=
  match dest with
  | Some _ => ret tt
  | None => throw TypeError
  end.

Definition markStarted (when : Q) (n : SourceNode) : SourceNode :=
  {| node_buffer := node_buffer n; node_startedAt := Some when;
     node_stopped := node_stopped n |}.

Definition markStopped (n : SourceNode) : SourceNode :=
  {| node_buffer := node_buffer n; node_startedAt := node_startedAt n;
     node_stopped := true |}.

(** [source.start(when)]: a negative [when] and a second [start] throw. *)
Definition source_start (id : nat) (when : Q) : M unit :=
  ns <- gets (fun s => nodes (browser s)) ;;
  match ns !! id with
  | Some n =>
      if negb (Qle_bool 0 when) then throw RangeError
      else match node_startedAt n with
           | Some _ => throw InvalidStateError
           | None =>
               modify (on_browser (set_nodes (<[id := markStarted when n]> ns)))
           end
  | None => throw TypeError
  end.

(** [source.stop()]: throws on a node that was never started; on a started
    node it stops playback, also when called again or after the node has
    played to its end. *)
Definition source_stop (id : nat) : M unit :=
  ns <- gets (fun s => nodes (browser s)) ;;
  match ns !! id with
  | Some n =>
      match node_startedAt n with
      | Some _ =>
          modify (on_browser (set_nodes (<[id := markStopped n]> ns)))
      | None => throw InvalidStateError
      end
  | None => throw TypeError
  end.

(** [sourcesRef.current.add], [.delete] and [.clear]. *)
Definition Set_add (x : nat) (l : list nat) : list nat :=
  if bool_decide (x ∈ l) then l else l ++ [x].
Definition Set_delete (x : nat) (l : list nat) : list nat :=
  filter (fun y => y <> x) l.

Definition sources_add (id : nat) : M unit :=
  modify (on_refs (fun r => set_sourcesRef (Set_add id (sourcesRef r)) r)).
Definition sources_delete (id : nat) : M unit :=
  modify (on_refs (fun r => set_sourcesRef (Set_delete id (sourcesRef r)) r)).
Definition sources_clear : M unit :=
  modify (on_refs (set_sourcesRef [])).

(** State setters. *)
Definition setStatus (v : ConnectionStatus) : M unit := modify (on_react (set_status v)).
Definition setErrorMsg (v : option string) : M unit := modify (on_react (set_errorMsg v)).
Definition setVolumeLevel (v : Q) : M unit := modify (on_react (set_volumeLevel v)).
Definition setIsMuted (v : bool) : M unit := modify (on_react (set_isMuted v)).
Definition setIsVideoEnabled (v : bool) : M unit := modify (on_react (set_isVideoEnabled v)).

(** [if (ref.current) { release(ref.current); ref.current = null; }] *)
Definition release {A} (get : Refs -> option A) (free : A -> M unit)
    (clear : Refs -> Refs) : M unit :=
  cur <- gets (fun s => get (refs s)) ;;
  match cur with
  | Some x => free x ;; modify (on_refs clear)
  | None => ret tt
  end.

(* --------------------------------------------------------------------- *)
(** *** [stopSession] (lines 49-81) *)

Definition stopSession : M unit :=
  release videoIntervalRef clearInterval (set_videoIntervalRef None) ;;
  release processorRef processor_disconnect (set_processorRef None) ;;
  release inputAudioContextRef context_close (set_inputAudioContextRef None) ;;
  release streamRef (fun st => forEach (stream_tracks st) track_stop)
          (set_streamRef None) ;;
  srcs <- gets (fun s => sourcesRef (refs s)) ;;
  forEach srcs (fun source =>
    try_catch (source_stop source) (fun _ => ret tt)) ;;
  sources_clear ;;
  release outputAudioContextRef context_close (set_outputAudioContextRef None) ;;
  modify (on_refs (set_gainNodeRef None)) ;;
  modify (on_refs (set_sessionPromiseRef None)) ;;
  setStatus disconnected ;;
  setVolumeLevel 0.

Section Component.
Context `{AudioUtils}.

(* ------------------------------------------------------------------- *)
(** *** [startVideoStream] (lines 250-288) *)

(** The interval callback.  [frame] is what the capture of the video
    element produced: [None] when an element or the canvas context is
    missing, the video has no width, or [toBlob] gave no blob. *)
Definition videoTick (sc : Scope) (frame : option string) : M unit :=
  if negb (scope_isVideoEnabled sc) then ret tt
  else match frame with
       | None => ret tt
       | Some base64Data =>
           p <- gets (fun s => sessionPromiseRef (refs s)) ;;
           match p with
           | Some _ => send (ImageMedia "image/jpeg" base64Data)
           | None => ret tt
           end
       end.

Definition startVideoStream (sc : Scope) : M unit :=
  cur <- gets (fun s => videoIntervalRef (refs s)) ;;
  match cur with Some id => clearInterval id | None => ret tt end ;;
  id <- setInterval sc ;;
  modify (on_refs (set_videoIntervalRef (Some id))).

(* ------------------------------------------------------------------- *)
(** *** [scriptProcessor.onaudioprocess] (lines 157-176) *)

Definition sumSquares (inputData : SampleWindow) : Q :=
  fold_left (fun sum x => sum + x * x) inputData 0.

Definition volumeOf (inputData : SampleWindow) : Q :=
  let rms := Math_sqrt (sumSquares inputData / inject_Z (Z.of_nat (length inputData))) in
  JsMath.min (rms * 5) 1.

Definition onaudioprocess (sc : Scope) (inputData : SampleWindow) : M unit :=
  if scope_isMuted sc then ret tt
  else
    setVolumeLevel (volumeOf inputData) ;;
    let pcmBlob := createPcmBlob inputData in
    p <- gets (fun s => sessionPromiseRef (refs s)) ;;
    match p with
    | Some _ => send (AudioMedia pcmBlob)
    | None => ret tt
    end.

(* ------------------------------------------------------------------- *)
(** *** [onopen] (lines 147-183) *)

Definition onopen (sc : Scope) (processorId : nat) : M unit :=
  setStatus connected ;;
  r <- gets refs ;;
  match inputAudioContextRef r, streamRef r with
  | Some _, Some _ =>
      modify (on_refs (set_processorRef
                (Some {| sp_id := processorId; sp_scope := sc |}))) ;;
      startVideoStream sc
  | _, _ => ret tt
  end.

(* ------------------------------------------------------------------- *)
(** *** [onmessage] (lines 184-219)

    The handler is an [async] function with one [await], on the promise
    of [decodeAudioData].  [onmessage_begin] is what runs when the
    message is delivered, up to that [await]; [onmessage_resume] is what
    runs when the promise has settled.  [onmessage] is the handler run
    to completion with nothing in between. *)

Record Pending := {
  p_decoded : Completion AudioBuffer;   (* how the awaited promise settles *)
  p_message : LiveServerMessage
}.

(** Lines 213-218. *)
Definition handleInterrupted (message : LiveServerMessage) : M unit :=
  if msg_interrupted message then
    srcs <- gets (fun s => sourcesRef (refs s)) ;;
    forEach srcs source_stop ;;
    sources_clear ;;
    modify (on_refs (set_nextStartTimeRef 0))
  else ret tt.

Definition onmessage_begin (currentTime : Q) (message : LiveServerMessage)
  : M (option Pending) :=
  r <- gets refs ;;
  match truthy (msg_data message), outputAudioContextRef r, gainNodeRef r with
  | Some base64Audio, Some ctx, Some _ =>
      (* Sync start time *)
      modify (on_refs (set_nextStartTimeRef
                (JsMath.max (nextStartTimeRef r) currentTime))) ;;
      match base64ToBytes base64Audio with
      | Normal audioBytes =>
          ret (Some {| p_decoded :=
                         decodeAudioData audioBytes ctx AUDIO_OUTPUT_SAMPLE_RATE;
                       p_message := message |})
      | Throw err =>
          (* caught by the handler's [catch] *)
          handleInterrupted message ;; ret None
      end
  | _, _, _ => handleInterrupted message ;; ret None
  end.

(** The rest of the [try] block, from the settled promise on. *)
Definition playChunk (p : Pending) : M unit :=
  audioBuffer <- lift (p_decoded p) ;;
  source <- createBufferSource audioBuffer ;;
  gain <- gets (fun s => gainNodeRef (refs s)) ;;
  source_connect source gain ;;
  start <- gets (fun s => nextStartTimeRef (refs s)) ;;
  source_start source start ;;
  modify (on_refs (set_nextStartTimeRef (start + ab_duration audioBuffer))) ;;
  sources_add source.

Definition onmessage_resume (p : Pending) : M unit :=
  try_catch (playChunk p) (fun err => ret tt) ;;
  handleInterrupted (p_message p).

Definition onmessage (currentTime : Q) (message : LiveServerMessage) : M unit :=
  p <- onmessage_begin currentTime message ;;
  match p with
  | Some p => onmessage_resume p
  | None => ret tt
  end.

(** [source.onended] (lines 201-203). *)
Definition onended (source : nat) : M unit := sources_delete source.

(* ------------------------------------------------------------------- *)
(** *** [onclose], [onerror], and the [catch] of the session promise *)

Definition onclose : M unit := stopSession.

Definition onerror (err : JsError) : M unit :=
  setErrorMsg (Some "Connection error. Please try again."%string) ;;
  stopSession.

(** Lines 234-239. *)
Definition onconnectfailed (err : JsError) : M unit :=
  setErrorMsg (Some (message_or err "Failed to connect to Gemini.")) ;;
  setStatus error ;;
  stopSession.

(* ------------------------------------------------------------------- *)
(** *** [startSession] (lines 83-248)

    What the browser hands to one call of [startSession]: whether an API
    key is configured, the objects the constructors return, and how the
    awaited promises settle. *)

Record Environment := {
  env_apiKey : bool;
  env_inputContext : nat;
  env_inputResume : Completion unit;
  env_outputContext : nat;
  env_outputResume : Completion unit;
  env_gainNode : nat;
  env_getUserMedia : Completion MediaStream;
  env_session : nat
}.

(** The call from its first line to its last, each [await] settling with
    nothing run in between.  The same function [await] by [await] is
    [startSession_begin] and [startSession_resume] below. *)
Definition startSession (env : Environment) : M unit :=
  sc <- gets (fun s => {| scope_isMuted := isMuted (react s);
                         scope_isVideoEnabled := isVideoEnabled (react s) |}) ;;
  (* Ensure clean slate *)
  stopSession ;;
  setErrorMsg None ;;
  setStatus connecting ;;
  try_catch
    ((if env_apiKey env then ret tt
      else throw {| err_name := "Error";
                    err_message := "API Key is missing. Please check your configuration." |}) ;;
     modify (on_refs (set_inputAudioContextRef (Some (env_inputContext env)))) ;;
     lift (env_inputResume env) ;;
     modify (on_refs (set_outputAudioContextRef (Some (env_outputContext env)))) ;;
     lift (env_outputResume env) ;;
     modify (on_refs (set_gainNodeRef (Some (env_gainNode env)))) ;;
     stream <- lift (env_getUserMedia env) ;;
     modify (on_refs (set_streamRef (Some stream))) ;;
     modify (on_refs (set_nextStartTimeRef 0)) ;;
     modify (on_browser (set_callbacks (Some sc))) ;;
     modify (on_refs (set_sessionPromiseRef (Some (env_session env)))))
    (fun e =>
       setErrorMsg (Some (message_or e "Failed to initialize session.")) ;;
       setStatus error).

(* ------------------------------------------------------------------- *)
(** *** The controls (lines 329, 343-347) *)

(** The toggles write the state cells.  (The effect of lines 290-296 then
    sets [enabled] on the video tracks; no callback reads that.) *)
Definition onToggleMute : M unit :=
  m <- gets (fun s => isMuted (react s)) ;; setIsMuted (negb m).
Definition onToggleVideo : M unit :=
  v <- gets (fun s => isVideoEnabled (react s)) ;; setIsVideoEnabled (negb v).
Definition dismissError : M unit := setStatus disconnected.

(* ------------------------------------------------------------------- *)
(** *** The event loop

    Every way the component is entered, each callback run whole.  Events
    of the transport and of the devices reach the callbacks that were
    registered: those of the latest [ai.live.connect], the processor in
    [processorRef], a running interval.  (A tick of a processor that is
    no longer referenced, and the callbacks cut at their [await]s, are
    moves of the finer loops that follow.) *)

Inductive Event :=
| EvStart (env : Environment)            (* the Start button *)
| EvStop                                 (* the End button *)
| EvOpen (processorId : nat)
| EvMessage (currentTime : Q) (message : LiveServerMessage)
| EvClose
| EvError (err : JsError)
| EvConnectFailed (err : JsError)
| EvAudioProcess (inputData : SampleWindow)
| EvVideoTick (id : positive) (frame : option string)
| EvEnded (source : nat)
| EvToggleMute
| EvToggleVideo
| EvDismiss.

Definition lookupTimer (id : positive) (ts : list (positive * Scope)) : option Scope :=
  (fun r => r.2.2) <$> list_find (fun t => t.1 = id) ts.
#[global] Arguments lookupTimer : simpl never.

Definition handler (ev : Event) : M unit :=
  match ev with
  | EvStart env => startSession env
  | EvStop => stopSession
  | EvOpen pid =>
      cb <- gets (fun s => callbacks (browser s)) ;;
      match cb with Some sc => onopen sc pid | None => ret tt end
  | EvMessage t m =>
      cb <- gets (fun s => callbacks (browser s)) ;;
      match cb with Some _ => onmessage t m | None => ret tt end
  | EvClose =>
      cb <- gets (fun s => callbacks (browser s)) ;;
      match cb with Some _ => onclose | None => ret tt end
  | EvError err =>
      cb <- gets (fun s => callbacks (browser s)) ;;
      match cb with Some _ => onerror err | None => ret tt end
  | EvConnectFailed err =>
      cb <- gets (fun s => callbacks (browser s)) ;;
      match cb with Some _ => onconnectfailed err | None => ret tt end
  | EvAudioProcess w =>
      p <- gets (fun s => processorRef (refs s)) ;;
      match p with Some sp => onaudioprocess (sp_scope sp) w | None => ret tt end
  | EvVideoTick id frame =>
      ts <- gets (fun s => timers (browser s)) ;;
      match lookupTimer id ts with
      | Some sc => videoTick sc frame
      | None => ret tt
      end
  | EvEnded source => onended source
  | EvToggleMute => onToggleMute
  | EvToggleVideo => onToggleVideo
  | EvDismiss => dismissError
  end.

Definition step (ev : Event) (s : Session) : Session := exec (handler ev) s.

Definition run (evs : list Event) (s : Session) : Session :=
  fold_left (fun s ev => step ev s) evs s.

End Component.

(* ===================================================================== *)
(** ** Handlers in flight

    Between the [await] of one [onmessage] call and its continuation the
    event loop may run other callbacks.  A [Loop] is the session together
    with the [onmessage] calls that are suspended at their [await]. *)

Section Interleaving.
Context `{AudioUtils}.

Record Loop := { session : Session; awaiting : list Pending }.

Inductive Turn :=
| Deliver (currentTime : Q) (message : LiveServerMessage)  (* a message arrives *)
| Settle (i : nat)                  (* the i-th suspended call continues *)
| Other (ev : Event).               (* any other callback, run whole *)

Definition turn (t : Turn) (l : Loop) : Loop :=
  match t with
  | Deliver now m =>
      match onmessage_begin now m (session l) with
      | (Normal (Some p), s') => {| session := s'; awaiting := awaiting l ++ [p] |}
      | (_, s') => {| session := s'; awaiting := awaiting l |}
      end
  | Settle i =>
      match awaiting l !! i with
      | Some p => {| session := exec (onmessage_resume p) (session l);
                     awaiting := delete i (awaiting l) |}
      | None => l
      end
  | Other ev => {| session := step ev (session l); awaiting := awaiting l |}
  end.

Definition turns (ts : list Turn) (l : Loop) : Loop :=
  fold_left (fun l t => turn t l) ts l.

(** The interruption block of lines 213-218 as a turn of its own: a
    message that carries the flag and no audio. *)
Definition interruption : LiveServerMessage :=
  {| msg_data := None; msg_interrupted := true |}.

End Interleaving.

(* ===================================================================== *)
(** ** [startSession], [await] by [await]

    [startSession] is an [async] function with three [await]s (lines 102,
    108 and 116).  [startSession_begin] is what runs when it is called, up
    to the first [await]; [startSession_resume] is what runs when the
    promise a call is suspended on has settled, up to the next [await] or
    to the end. *)

Inductive StartStage :=
| AwaitInputResume      (* line 102 *)
| AwaitOutputResume     (* line 108 *)
| AwaitGetUserMedia.    (* line 116 *)

(** A suspended call: what the browser hands it, the scope of the render
    it was defined in, and the [await] it is at. *)
Record Starting := {
  starting_env : Environment;
  starting_scope : Scope;
  starting_stage : StartStage
}.

(** Calling a method of [null]. *)
Definition NullError : JsError :=
  {| err_name := "TypeError";
     err_message := "Cannot read properties of null (reading 'createGain')" |}.

(** Lines 243-247. *)
Definition startSession_catch (e : JsError) : M (option Starting) :=
  setErrorMsg (Some (message_or e "Failed to initialize session.")) ;;
  setStatus error ;;
  ret None.

(** Lines 84-102. *)
Definition startSession_begin (env : Environment) : M (option Starting) :=
  sc <- gets (fun s => {| scope_isMuted := isMuted (react s);
                         scope_isVideoEnabled := isVideoEnabled (react s) |}) ;;
  (* Ensure clean slate *)
  stopSession ;;
  setErrorMsg None ;;
  setStatus connecting ;;
  try_catch
    ((if env_apiKey env then ret tt
      else throw {| err_name := "Error";
                    err_message := "API Key is missing. Please check your configuration." |}) ;;
     modify (on_refs (set_inputAudioContextRef (Some (env_inputContext env)))) ;;
     ret (Some {| starting_env := env; starting_scope := sc;
                  starting_stage := AwaitInputResume |}))
    startSession_catch.

(** Lines 102-108, 108-116 and 116-241.  After the second [await] the
    gain node is made by [outputAudioContextRef.current.createGain()],
    which throws when the reference was cleared in the meantime. *)
Definition startSession_resume (st : Starting) : M (option Starting) :=
  let env := starting_env st in
  try_catch
    (match starting_stage st with
     | AwaitInputResume =>
         lift (env_inputResume env) ;;
         modify (on_refs (set_outputAudioContextRef (Some (env_outputContext env)))) ;;
         ret (Some {| starting_env := env; starting_scope := starting_scope st;
                      starting_stage := AwaitOutputResume |})
     | AwaitOutputResume =>
         lift (env_outputResume env) ;;
         ctx <- gets (fun s => outputAudioContextRef (refs s)) ;;
         match ctx with
         | Some _ =>
             modify (on_refs (set_gainNodeRef (Some (env_gainNode env)))) ;;
             ret (Some {| starting_env := env; starting_scope := starting_scope st;
                          starting_stage := AwaitGetUserMedia |})
         | None => throw NullError
         end
     | AwaitGetUserMedia =>
         stream <- lift (env_getUserMedia env) ;;
         modify (on_refs (set_streamRef (Some stream))) ;;
         modify (on_refs (set_nextStartTimeRef 0)) ;;
         modify (on_browser (set_callbacks (Some (starting_scope st)))) ;;
         modify (on_refs (set_sessionPromiseRef (Some (env_session env)))) ;;
         ret None
     end)
    startSession_catch.

(* ===================================================================== *)
(** ** Everything in flight

    A [World] is the loop of suspended [onmessage] calls together with the
    calls of [startSession] that are suspended at an [await].  Its moves
    are the turns of that loop, a call of [startSession] up to its first
    [await], the continuation of a suspended call, and the two device
    callbacks fired whatever the references hold: [onaudioprocess] of a
    processor that was disconnected (the closure does not consult
    [processorRef]), and the [toBlob] callback of a video tick whose
    interval has since been cleared. *)

Section Flight.
Context `{AudioUtils}.

Record World := { loop : Loop; starting : list Starting }.

Inductive Move :=
| Run (t : Turn)                     (* a turn of the loop of messages *)
| CallStart (env : Environment)      (* the Start button, up to line 102 *)
| SettleStart (i : nat)              (* the i-th suspended start continues *)
| StrayTick (sc : Scope) (inputData : SampleWindow)
| StrayFrame (sc : Scope) (frame : option string).

Definition into (w : World) (s : Session) : Loop :=
  {| session := s; awaiting := awaiting (loop w) |}.

Definition move (mv : Move) (w : World) : World :=
  match mv with
  | Run t => {| loop := turn t (loop w); starting := starting w |}
  | CallStart env =>
      match startSession_begin env (session (loop w)) with
      | (Normal (Some st), s') =>
          {| loop := into w s'; starting := starting w ++ [st] |}
      | (_, s') => {| loop := into w s'; starting := starting w |}
      end
  | SettleStart i =>
      match starting w !! i with
      | Some st =>
          match startSession_resume st (session (loop w)) with
          | (Normal (Some st'), s') =>
              {| loop := into w s'; starting := <[i := st']> (starting w) |}
          | (_, s') => {| loop := into w s'; starting := delete i (starting w) |}
          end
      | None => w
      end
  | StrayTick sc inputData =>
      {| loop := into w (exec (onaudioprocess sc inputData) (session (loop w)));
         starting := starting w |}
  | StrayFrame sc frame =>
      {| loop := into w (exec (videoTick sc frame) (session (loop w)));
         starting := starting w |}
  end.

Definition moves (mvs : list Move) (w : World) : World :=
  fold_left (fun w mv => move mv w) mvs w.

End Flight.

(* ===================================================================== *)
(** ** States *)

(** The component as mounted: the initial values of [useState] and [useRef]. *)
Definition initial : Session :=
  {| react := {| status := disconnected; errorMsg := None; isMuted := false;
                 isVideoEnabled := true; volumeLevel := 0 |};
     refs := {| inputAudioContextRef := None; outputAudioContextRef := None;
                streamRef := None; processorRef := None; nextStartTimeRef := 0;
                videoIntervalRef := None; gainNodeRef := None;
                sessionPromiseRef := None; sourcesRef := [] |};
     browser := {| closedContexts := []; stoppedTracks := [];
                   disconnectedNodes := []; timers := []; nextTimer := 1%positive;
                   nodes := []; callbacks := None; outbox := [] |} |}.

(** The mounted component with nothing in flight. *)
Definition mounted : World :=
  {| loop := {| session := initial; awaiting := [] |}; starting := [] |}.

(** The timeline cursor and the live set. *)
Definition cursor (s : Session) : Q := nextStartTimeRef (refs s).
Definition liveSet (s : Session) : list nat := sourcesRef (refs s).

(** Every handle of the live set is a node on which [start] was called. *)
Definition started (ns : list SourceNode) (id : nat) : bool :=
  match ns !! id with
  | Some n => match node_startedAt n with Some _ => true | None => false end
  | None => false
  end.

Definition live_started (s : Session) : bool :=
  forallb (started (nodes (browser s))) (liveSet s).

(** [stop] was called on the node. *)
Definition stopped (ns : list SourceNode) (id : nat) : bool :=
  match ns !! id with
  | Some n => node_stopped n
  | None => false
  end.

(** The scheduler can play: the output context and the gain node exist. *)
Definition canPlay (s : Session) : option nat :=
  match outputAudioContextRef (refs s), gainNodeRef (refs s) with
  | Some ctx, Some _ => Some ctx
  | _, _ => None
  end.

(** What the [try] block makes of a payload, and of a message: [None] when
    the message carries no audio, otherwise how decoding completes. *)
Definition decodePayload `{AudioUtils} (ctx : nat) (base64Audio : string)
  : Completion AudioBuffer :=
  match base64ToBytes base64Audio with
  | Normal audioBytes => decodeAudioData audioBytes ctx AUDIO_OUTPUT_SAMPLE_RATE
  | Throw e => Throw e
  end.

Definition chunkOf `{AudioUtils} (ctx : nat) (m : LiveServerMessage)
  : option (Completion AudioBuffer) :=
  decodePayload ctx <$> truthy (msg_data m).

(** Start time and duration of the nodes that were started, in the order
    they were created. *)
Definition schedule (ns : list SourceNode) : list (Q * Q) :=
  omap (fun n => (fun t => (t, ab_duration (node_buffer n))) <$> node_startedAt n) ns.

(* ===================================================================== *)
(** ** Notions used in the statements *)

(** The nodes after [stop] was tried on each of [srcs] in turn. *)
Definition stopOne (ns : list SourceNode) (id : nat) : list SourceNode :=
  match ns !! id with
  | Some n => match node_startedAt n with
              | Some _ => <[id := markStopped n]> ns
              | None => ns
              end
  | None => ns
  end.

Definition stopAll (ns : list SourceNode) (srcs : list nat) : list SourceNode :=
  fold_left stopOne srcs ns.

(** The session [stopSession] leaves. *)
Definition afterStop (s : Session) : Session :=
  let b := browser s in
  let r := refs s in
  {| react := set_volumeLevel 0 (set_status disconnected (react s));
     refs := {| inputAudioContextRef := None; outputAudioContextRef := None;
                streamRef := None; processorRef := None;
                nextStartTimeRef := nextStartTimeRef r;
                videoIntervalRef := None; gainNodeRef := None;
                sessionPromiseRef := None; sourcesRef := [] |};
     browser :=
       {| closedContexts :=
            (closedContexts b ++ option_list (inputAudioContextRef r))
              ++ option_list (outputAudioContextRef r);
          stoppedTracks :=
            stoppedTracks b ++ from_option stream_tracks [] (streamRef r);
          disconnectedNodes :=
            disconnectedNodes b ++ option_list (sp_id <$> processorRef r);
          timers := match videoIntervalRef r with
                    | Some id => filter (fun t => t.1 <> id) (timers b)
                    | None => timers b
                    end;
          nextTimer := nextTimer b;
          nodes := stopAll (nodes b) (sourcesRef r);
          callbacks := callbacks b;
          outbox := outbox b |} |}.

(** The session after line 190, after lines 196-207, and after lines
    215-217. *)
Definition synced (now : Q) (s : Session) : Session :=
  on_refs (set_nextStartTimeRef (JsMath.max (cursor s) now)) s.

Definition enqueued (buf : AudioBuffer) (s : Session) : Session :=
  let id := length (nodes (browser s)) in
  on_refs (fun r => set_sourcesRef (Set_add id (sourcesRef r))
                      (set_nextStartTimeRef (cursor s + ab_duration buf) r))
    (on_browser (fun b =>
       set_nodes (nodes b ++ [{| node_buffer := buf;
                                 node_startedAt := Some (cursor s);
                                 node_stopped := false |}]) b) s).

Definition interrupted (s : Session) : Session :=
  on_refs (fun r => set_nextStartTimeRef 0 (set_sourcesRef [] r))
    (on_browser (fun b => set_nodes (stopAll (nodes b) (liveSet s)) b) s).

(** The session when the [try] block threw after creating its node. *)
Definition abandoned (buf : AudioBuffer) (s : Session) : Session :=
  on_browser (fun b =>
    set_nodes (nodes b ++ [{| node_buffer := buf; node_startedAt := None;
                              node_stopped := false |}]) b) s.

(** [x] is [s] after the audio part of a handler: the cursor did not go
    back, nodes were only added, the live set only grew, and its handles
    are still started ones. *)
Record extends (s x : Session) : Prop := {
  ext_react : react x = react s;
  ext_cursor : cursor s <= cursor x;
  ext_nodes : exists extra, nodes (browser x) = nodes (browser s) ++ extra;
  ext_live : forall id, id ∈ liveSet s -> id ∈ liveSet x;
  ext_started : live_started s = true -> live_started x = true;
  ext_canPlay : canPlay x = canPlay s
}.


(** The events whose handler assigns zero to the cursor: a session start
    (line 134) and a message with the interruption flag (line 217). *)
Definition resets (ev : Event) : bool :=
  match ev with
  | EvStart _ => true
  | EvMessage _ m => msg_interrupted m
  | _ => false
  end.

(** An interruption, and the teardown in any of the ways it is triggered:
    the End button, the close and error callbacks, a failed connect. *)
Definition is_interruption (ev : Event) : bool :=
  match ev with
  | EvMessage _ m => msg_interrupted m
  | _ => false
  end.

Definition is_teardown (ev : Event) : bool :=
  match ev with
  | EvStop | EvClose | EvError _ | EvConnectFailed _ => true
  | _ => false
  end.

(** Every acquisition of [startSession] succeeds. *)
Definition acquires (env : Environment) : bool :=
  env_apiKey env &&
  match env_inputResume env, env_outputResume env, env_getUserMedia env with
  | Normal _, Normal _, Normal _ => true
  | _, _, _ => false
  end.

(* ===================================================================== *)
(** ** A reference implementation of the imports

    Used to run the callbacks on concrete inputs. *)

Module Reference.

Definition InvalidCharacterError : JsError :=
  {| err_name := "InvalidCharacterError";
     err_message := "The string to be decoded is not correctly encoded." |}.
Definition DecodeError : JsError :=
  {| err_name := "DecodeError";
     err_message := "payload length is not a multiple of the sample width" |}.

Definition byte_of (n : N) : Byte.byte := default Byte.x00 (Byte.of_N n).

(** The value of a base64 digit. *)
Definition digit (c : Ascii.ascii) : option N :=
  let n := Ascii.N_of_ascii c in
  if (65 <=? n)%N && (n <=? 90)%N then Some (n - 65)%N
  else if (97 <=? n)%N && (n <=? 122)%N then Some (n - 71)%N
  else if (48 <=? n)%N && (n <=? 57)%N then Some (n + 4)%N
  else if (n =? 43)%N then Some 62%N
  else if (n =? 47)%N then Some 63%N
  else None.

Definition isPad (c : Ascii.ascii) : bool := (Ascii.N_of_ascii c =? 61)%N.

(** Modelled from the spec: [base64ToBytes] of [utils/audioUtils], which
    turns the base64-encoded audio chunk of a message into bytes; a
    string that is not base64 throws, as [atob] does. *)
Fixpoint fromBase64 (s : string) : Completion (list Byte.byte) :=
  match s with
  | EmptyString => Normal []
  | String a (String b (String c (String d rest))) =>
      match digit a, digit b with
      | Some x, Some y =>
          let b1 := byte_of (x * 4 + y / 16) in
          if isPad c then
            match isPad d, rest with
            | true, EmptyString => Normal [b1]
            | _, _ => Throw InvalidCharacterError
            end
          else
            match digit c with
            | Some z =>
                let b2 := byte_of ((y mod 16) * 16 + z / 4) in
                if isPad d then
                  match rest with
                  | EmptyString => Normal [b1; b2]
                  | _ => Throw InvalidCharacterError
                  end
                else
                  match digit d with
                  | Some w =>
                      let b3 := byte_of ((z mod 4) * 64 + w) in
                      match fromBase64 rest with
                      | Normal bs => Normal (b1 :: b2 :: b3 :: bs)
                      | Throw e => Throw e
                      end
                  | None => Throw InvalidCharacterError
                  end
            | None => Throw InvalidCharacterError
            end
      | _, _ => Throw InvalidCharacterError
      end
  | _ => Throw InvalidCharacterError
  end.

(** Modelled from the spec: [decodeAudioData] of [utils/audioUtils].  The
    payload is 16-bit samples; it fails with a DecodeError when the
    payload length is not a whole multiple of the sample width, and the
    chunk's duration derives from the sample count and the declared
    output rate. *)
Definition decodePcm (data : list Byte.byte) (ctx : nat) (sampleRate : positive)
  : Completion AudioBuffer :=
  let n := N.of_nat (length data) in
  if (n mod 2 =? 0)%N
  then Normal {| ab_length := (n / 2)%N; ab_sampleRate := sampleRate |}
  else Throw DecodeError.

(** Modelled from the spec: [createPcmBlob] of [utils/audioUtils]:
    fixed-point 16-bit little-endian samples, saturated at the [-1,1]
    boundaries, tagged with a format string that embeds the input rate. *)
Definition toInt16 (x : Q) : Z :=
  let clamped := JsMath.max (-1) (JsMath.min x 1) in
  Z.max (-32768) (Z.min 32767 (Qfloor (clamped * 32768))).

Definition int16_le (v : Z) : list Byte.byte :=
  let u := Z.to_N (v mod 65536) in
  [byte_of (u mod 256); byte_of (u / 256)].

Definition pcmBlob (w : SampleWindow) : PcmBlob :=
  {| blob_data := string_of_list_byte (concat (map (fun x => int16_le (toInt16 x)) w));
     blob_mimeType := "audio/pcm;rate=16000" |}.

(** [Math.sqrt], to six decimal places. *)
Definition sqrt (q : Q) : Q :=
  Z.sqrt (Qnum q * Zpos (Qden q) * 1000000000000) # (Qden q * 1000000).

(** The imports, for a given output sample rate; 24 kHz by default. *)
Definition utilsAt (rate : positive) : AudioUtils :=
  {| createPcmBlob := pcmBlob;
     base64ToBytes := fromBase64;
     decodeAudioData := decodePcm;
     AUDIO_OUTPUT_SAMPLE_RATE := rate;
     Math_sqrt := sqrt |}.

#[export] Instance utils : AudioUtils := utilsAt 24000.

(** The base64 text of [n] zero bytes. *)
Fixpoint zeros (n : nat) : string :=
  match n with
  | O => ""
  | 1%nat => "AA=="
  | 2%nat => "AAA="
  | S (S (S n')) => "AAAA" ++ zeros n'
  end%string.

(** A browser in which every acquisition succeeds. *)
Definition goodEnv : Environment :=
  {| env_apiKey := true;
     env_inputContext := 1; env_inputResume := Normal tt;
     env_outputContext := 2; env_outputResume := Normal tt;
     env_gainNode := 3;
     env_getUserMedia := Normal {| stream_tracks := [10; 11]%nat |};
     env_session := 4 |}.

(** A session that is connected and can play. *)
Definition live : Session := run [EvStart goodEnv; EvOpen 5] initial.

(** A message that carries [k] frames of silence, and the buffer it
    decodes to at a given rate. *)
Definition chunk (k : nat) : LiveServerMessage :=
  {| msg_data := Some (zeros (2 * k)); msg_interrupted := false |}.
Definition frames (k : N) (rate : positive) : AudioBuffer :=
  {| ab_length := k; ab_sampleRate := rate |}.

(** A payload of three bytes: not a whole number of 16-bit samples. *)
Definition malformed : LiveServerMessage :=
  {| msg_data := Some (zeros 3); msg_interrupted := false |}.

(** A chunk that arrives with the interruption flag. *)
Definition lastWords : LiveServerMessage :=
  {| msg_data := Some (zeros 6); msg_interrupted := true |}.

(** A session that was started while the mute flag was set. *)
Definition startedMuted : Session :=
  run [EvStart goodEnv; EvOpen 5; EvToggleMute; EvStop;
       EvStart goodEnv; EvOpen 6] initial.

(** A full-scale window. *)
Definition loud : SampleWindow := [1; 1; 1; 1].

(** A session in which one chunk is playing. *)
Definition playing : Session :=
  run [EvStart goodEnv; EvOpen 5; EvMessage 5 (chunk 3)] initial.

(** The two sessions with no handler suspended. *)
Definition idle : Loop := {| session := live; awaiting := [] |}.
Definition busy : Loop := {| session := playing; awaiting := [] |}.

(** A suspended handler whose chunk of [k] frames has been decoded. *)
Definition decoded (k : nat) : Pending :=
  {| p_decoded := Normal (frames (N.of_nat k) 24000); p_message := chunk k |}.

(** The component while [startSession] waits for the output context to
    resume, and while it waits for the capture device. *)
Definition resuming : World := moves [CallStart goodEnv; SettleStart 0] mounted.
Definition asking : World :=
  moves [CallStart goodEnv; SettleStart 0; SettleStart 0] mounted.
Definition askingCall : Starting :=
  {| starting_env := goodEnv;
     starting_scope := {| scope_isMuted := false; scope_isVideoEnabled := true |};
     starting_stage := AwaitGetUserMedia |}.
Definition resumingCall : Starting :=
  {| starting_env := goodEnv;
     starting_scope := {| scope_isMuted := false; scope_isVideoEnabled := true |};
     starting_stage := AwaitOutputResume |}.

End Reference.

(* ===================================================================== *)
(** ** What is rendered

    [ControlPanel] and [VideoFeed] are functions of their props; the
    component passes them its state cells (lines 301-306 and 340-349).
    Of the markup, what is kept is which controls are enabled, what the
    main button does, and which overlays, indicators and rings are
    shown. *)

(** [ControlPanelProps] without the callbacks. *)
Record ControlPanelProps := {
  cp_status : ConnectionStatus;
  cp_isMuted : bool;
  cp_isVideoEnabled : bool;
  cp_volumeLevel : Q
}.

(** The main button: its [onClick] and its label. *)
Inductive MainButton :=
| ConnectButton                      (* onClick={onConnect}, "Start" *)
| DisconnectButton (label : string). (* onClick={onDisconnect} *)

(** The volume ring's [opacity] and the factor of its [scale]. *)
Record Ring := { ring_opacity : Q; ring_scale : Q }.

Record ControlPanelView := {
  muteDisabled : bool;
  mainButton : MainButton;
  videoDisabled : bool;
  ring : option Ring
}.

Definition status_eqb (a b : ConnectionStatus) : bool :=
  match a, b with
  | disconnected, disconnected | connecting, connecting
  | connected, connected | error, error => true
  | _, _ => false
  end.

Definition ControlPanel (p : ControlPanelProps) : ControlPanelView :=
  let isConnected := status_eqb (cp_status p) connected in
  let isConnecting := status_eqb (cp_status p) connecting in
  {| muteDisabled := negb isConnected;
     mainButton :=
       if isConnected || isConnecting
       then DisconnectButton (if isConnecting then "..." else "End")
       else ConnectButton;
     videoDisabled := negb isConnected;
     ring :=
       if negb (cp_isMuted p) && isConnected
       then Some {| ring_opacity := (3 # 10) + cp_volumeLevel p;
                    ring_scale := 1 + cp_volumeLevel p * (3 # 10) |}
       else None |}.

Record VideoFeedProps := {
  vf_isConnecting : bool;
  vf_isConnected : bool;
  vf_isVideoEnabled : bool
}.

(** What is drawn over the video when it is off or not connected. *)
Inductive Placeholder := Spinner | CameraIcon.

Record VideoFeedView := {
  videoOpaque : bool;               (* [opacity-100] rather than [opacity-30] *)
  placeholder : option Placeholder;
  liveIndicator : bool
}.

Definition VideoFeed (p : VideoFeedProps) : VideoFeedView :=
  {| videoOpaque := vf_isConnected p && vf_isVideoEnabled p;
     placeholder :=
       if negb (vf_isVideoEnabled p) || negb (vf_isConnected p)
       then Some (if vf_isConnecting p then Spinner else CameraIcon)
       else None;
     liveIndicator := vf_isConnected p |}.

(** What [LiveSession] returns (lines 298-352). *)
Record LiveSessionView := {
  view_feed : VideoFeedView;
  view_startOverlay : bool;                  (* the invitation to start *)
  view_errorOverlay : option (option string);  (* the error and its message *)
  view_panel : ControlPanelView
}.

Definition render (s : Session) : LiveSessionView :=
  let st := status (react s) in
  {| view_feed :=
       VideoFeed {| vf_isConnecting := status_eqb st connecting;
                    vf_isConnected := status_eqb st connected;
                    vf_isVideoEnabled := isVideoEnabled (react s) |};
     view_startOverlay := status_eqb st disconnected;
     view_errorOverlay :=
       if status_eqb st error then Some (errorMsg (react s)) else None;
     view_panel :=
       ControlPanel {| cp_status := st;
                       cp_isMuted := isMuted (react s);
                       cp_isVideoEnabled := isVideoEnabled (react s);
                       cp_volumeLevel := volumeLevel (react s) |} |}.

(* ===================================================================== *)
(** ** More notions used in the statements *)

(** The scope a call of [startSession] closes over. *)
Definition scopeOf (s : Session) : Scope :=
  {| scope_isMuted := isMuted (react s);
     scope_isVideoEnabled := isVideoEnabled (react s) |}.

(** The interval in [videoIntervalRef] is the only one running. *)
Definition timers_tracked (s : Session) : Prop :=
  match videoIntervalRef (refs s) with
  | Some id => exists sc, timers (browser s) = [(id, sc)]
  | None => timers (browser s) = []
  end.

(** [Math.sqrt] as far as the volume meter needs it. *)
Definition sqrt_sound `{AudioUtils} : Prop :=
  (forall x, 0 <= Math_sqrt x) /\
  (forall x, x == 0 -> Math_sqrt x == 0) /\
  (forall x, x == 1 -> Math_sqrt x == 1).

(** [a] is an initial segment of [b]. *)
Definition grows {A} (a b : list A) : Prop := exists more, b = a ++ more.

(** A browser in which the microphone is refused. *)
Definition deniedEnv : Environment :=
  {| env_apiKey := true;
     env_inputContext := 21; env_inputResume := Normal tt;
     env_outputContext := 22; env_outputResume := Normal tt;
     env_gainNode := 23;
     env_getUserMedia :=
       Throw {| err_name := "NotAllowedError"; err_message := "Permission denied" |};
     env_session := 24 |}.

(** The session [startSession] leaves: the teardown, the two state
    updates, then the acquisitions up to the first that fails. *)
Definition failedWith (e : JsError) (s : Session) : Session :=
  on_react (fun r =>
    set_status error
      (set_errorMsg (Some (message_or e "Failed to initialize session.")) r)) s.

Definition afterStart (env : Environment) (s : Session) : Session :=
  let t0 := on_react (fun r => set_status connecting (set_errorMsg None r))
                     (afterStop s) in
  if env_apiKey env then
    let t1 := on_refs (set_inputAudioContextRef (Some (env_inputContext env))) t0 in
    match env_inputResume env with
    | Throw e => failedWith e t1
    | Normal _ =>
        let t2 := on_refs (set_outputAudioContextRef (Some (env_outputContext env))) t1 in
        match env_outputResume env with
        | Throw e => failedWith e t2
        | Normal _ =>
            let t3 := on_refs (set_gainNodeRef (Some (env_gainNode env))) t2 in
            match env_getUserMedia env with
            | Throw e => failedWith e t3
            | Normal stream =>
                on_refs (fun r =>
                  set_sessionPromiseRef (Some (env_session env))
                    (set_nextStartTimeRef 0 (set_streamRef (Some stream) r)))
                  (on_browser (set_callbacks (Some (scopeOf s))) t3)
            end
        end
    end
  else
    failedWith {| err_name := "Error";
                  err_message := "API Key is missing. Please check your configuration." |}
               t0.

(** Two browsers that differ at most in their source nodes. *)
Definition same_devices (b1 b2 : Browser) : Prop :=
  closedContexts b1 = closedContexts b2 /\
  stoppedTracks b1 = stoppedTracks b2 /\
  disconnectedNodes b1 = disconnectedNodes b2 /\
  timers b1 = timers b2 /\
  nextTimer b1 = nextTimer b2 /\
  callbacks b1 = callbacks b2 /\
  outbox b1 = outbox b2.

(** The refs apart from the cursor and the live set. *)
Definition devices (r : Refs) : Refs :=
  set_nextStartTimeRef 0 (set_sourcesRef [] r).

(** A processor is held only together with the input context and the
    stream, and a video interval only together with a processor. *)
Definition capture_consistent (s : Session) : Prop :=
  let r := refs s in
  (is_Some (processorRef r) ->
   is_Some (inputAudioContextRef r) /\ is_Some (streamRef r)) /\
  (is_Some (videoIntervalRef r) -> is_Some (processorRef r)).







(* ===================================================================== *)
(** ** Facts about the numbers *)

Module JsMathFacts.
Import JsMath.

Lemma max_ge_l a b : a <= max a b.
Proof.
  unfold max. destruct (Qle_bool a b) eqn:E.
  - now apply Qle_bool_iff.
  - apply Qle_refl.
Qed.

Lemma max_ge_r a b : b <= max a b.
Proof.
  unfold max. destruct (Qle_bool a b) eqn:E.
  - apply Qle_refl.
  - destruct (Qlt_le_dec b a) as [L|L].
    + now apply Qlt_le_weak.
    + apply Qle_bool_iff in L. congruence.
Qed.

Lemma max_r a b : a <= b -> max a b = b.
Proof. intros L. unfold max. apply Qle_bool_iff in L. now rewrite L. Qed.

Lemma max_cases a b : max a b = a \/ max a b = b.
Proof. unfold max. destruct (Qle_bool a b); auto. Qed.

Lemma max_eq_r a b : a <= b -> max a b == b.
Proof. intros L. now rewrite max_r. Qed.


Lemma max_max a b c : b <= c -> max (max a b) c = max a c.
Proof.
  intros L. unfold max at 2 3. destruct (Qle_bool a b) eqn:E.
  - apply Qle_bool_iff in E.
    rewrite (max_r b c L). symmetry. apply max_r. now apply Qle_trans with b.
  - reflexivity.
Qed.

End JsMathFacts.

Lemma ab_duration_nonneg b : 0 <= ab_duration b.
Proof.
  unfold ab_duration, Qle; simpl. destruct (ab_length b); simpl; lia.
Qed.

(* ===================================================================== *)
(** ** Running the monad *)

Ltac destruct_session s :=
  let st := fresh "st" in let em := fresh "em" in let mu := fresh "mu" in
  let ve := fresh "ve" in let vl := fresh "vl" in
  let ic := fresh "ic" in let oc := fresh "oc" in let sr := fresh "sr" in
  let pr := fresh "pr" in let cur := fresh "cur" in let vi := fresh "vi" in
  let gn := fresh "gn" in let sp := fresh "sp" in let live := fresh "live" in
  let cc := fresh "cc" in let tr := fresh "tr" in let dn := fresh "dn" in
  let tm := fresh "tm" in let nt := fresh "nt" in let nd := fresh "nd" in
  let cb := fresh "cb" in let ob := fresh "ob" in
  destruct s as [[st em mu ve vl] [ic oc sr pr cur vi gn sp live]
                 [cc tr dn tm nt nd cb ob]].

Ltac js_unfold :=
  unfold bind, ret, throw, try_catch, gets, modify, lift,
         on_browser, on_refs, on_react.
Ltac js := repeat (progress (js_unfold; cbn)).

Lemma session_eta s :
  s = {| react := react s; refs := refs s; browser := browser s |}.
Proof. now destruct s. Qed.

Lemma forEach_try_stop srcs s :
  forEach srcs (fun source => try_catch (source_stop source) (fun _ => ret tt)) s
  = (Normal tt, on_browser (set_nodes (stopAll (nodes (browser s)) srcs)) s).
Proof.
  revert s. induction srcs as [|id srcs IH]; intros s.
  - destruct_session s. reflexivity.
  - destruct_session s. cbn [forEach]. unfold bind at 1.
    unfold stopAll. cbn [fold_left]. unfold stopOne at 2.
    unfold try_catch, source_stop. js.
    destruct (nd !! id) as [n|] eqn:E; js.
    + destruct (node_startedAt n) eqn:F; js; rewrite IH; reflexivity.
    + rewrite IH. reflexivity.
Qed.

Lemma forEach_track_stop ts s :
  forEach ts track_stop s
  = (Normal tt, on_browser (fun b => set_stoppedTracks (stoppedTracks b ++ ts) b) s).
Proof.
  revert s. induction ts as [|t ts IH]; intros s.
  - destruct_session s. js. now rewrite app_nil_r.
  - destruct_session s. cbn [forEach]. unfold bind at 1. unfold track_stop at 1.
    js. rewrite IH. js. now rewrite <- app_assoc.
Qed.

Lemma stopSession_spec s : stopSession s = (Normal tt, afterStop s).
Proof.
  destruct_session s. unfold stopSession, afterStop.
  unfold release, clearInterval, processor_disconnect, context_close,
    sources_clear, setStatus, setVolumeLevel.
  destruct vi, pr, ic, sr, oc; js;
    rewrite ?forEach_track_stop; js;
    rewrite forEach_try_stop; js; rewrite ?app_nil_r; reflexivity.
Qed.

(** *** Source nodes under [stop] *)

Lemma stopOne_lookup ns j id :
  stopOne ns j !! id =
  (fun n => if bool_decide (id = j) && started ns j then markStopped n else n)
    <$> ns !! id.
Proof.
  unfold stopOne, started.
  destruct (ns !! j) as [n|] eqn:E.
  - destruct (node_startedAt n) eqn:F.
    + destruct (decide (id = j)) as [->|N].
      * rewrite list_lookup_insert_eq by (eapply lookup_lt_Some; eauto).
        rewrite E. cbn. rewrite bool_decide_eq_true_2 by done. reflexivity.
      * rewrite list_lookup_insert_ne by done.
        rewrite bool_decide_eq_false_2 by done. cbn. now destruct (ns !! id).
    + rewrite andb_false_r. now destruct (ns !! id).
  - rewrite andb_false_r. now destruct (ns !! id).
Qed.

Lemma started_stopOne ns j id : started (stopOne ns j) id = started ns id.
Proof.
  unfold started at 1. rewrite stopOne_lookup. unfold started at 2.
  destruct (ns !! id) as [n|]; cbn; [|reflexivity].
  now destruct (bool_decide (id = j) && started ns j).
Qed.

Lemma stopped_stopOne_mono ns j id :
  stopped ns id = true -> stopped (stopOne ns j) id = true.
Proof.
  unfold stopped. rewrite stopOne_lookup.
  destruct (ns !! id) as [n|]; cbn; [|done].
  now destruct (bool_decide (id = j) && started ns j).
Qed.

Lemma stopped_stopOne ns j :
  started ns j = true -> stopped (stopOne ns j) j = true.
Proof.
  intros S. unfold stopped. rewrite stopOne_lookup, S.
  rewrite bool_decide_eq_true_2 by done. cbn.
  unfold started in S. now destruct (ns !! j).
Qed.

Lemma started_stopAll ns srcs id : started (stopAll ns srcs) id = started ns id.
Proof.
  revert ns. induction srcs as [|j srcs IH]; intros ns; [reflexivity|].
  cbn. unfold stopAll in IH. now rewrite IH, started_stopOne.
Qed.

Lemma stopped_stopAll_mono ns srcs id :
  stopped ns id = true -> stopped (stopAll ns srcs) id = true.
Proof.
  revert ns. induction srcs as [|j srcs IH]; intros ns S; [exact S|].
  cbn. apply IH. now apply stopped_stopOne_mono.
Qed.

Lemma stopped_stopAll ns srcs id :
  id ∈ srcs -> started ns id = true -> stopped (stopAll ns srcs) id = true.
Proof.
  revert ns. induction srcs as [|j srcs IH]; intros ns I S.
  - inversion I.
  - cbn. apply elem_of_cons in I as [->|I].
    + apply stopped_stopAll_mono. now apply stopped_stopOne.
    + apply IH; [exact I|]. now rewrite started_stopOne.
Qed.

Lemma lookupTimer_filter id ts :
  lookupTimer id (filter (fun t => t.1 <> id) ts) = None.
Proof.
  unfold lookupTimer.
  destruct (list_find _ _) as [[i t]|] eqn:E; [|reflexivity].
  apply list_find_Some in E as (L & P & _).
  apply list_elem_of_lookup_2 in L. apply list_elem_of_filter in L as [N _].
  contradiction.
Qed.

(* ===================================================================== *)
(** ** Teardown *)

(** C6.  [stopSession] always returns without raising, whatever subset of
    the resources is initialised.  When it has returned, every reference
    is cleared and the live set is empty, the video interval no longer
    runs, both audio contexts are closed, every track of the capture
    stream and every started handle of the live set is stopped, and the
    processor is disconnected.  Calling it again returns as well and
    changes nothing. *)
Theorem stopSession_total_idempotent (s : Session) :
  let s' := exec stopSession s in
  returns stopSession s /\
  (videoIntervalRef (refs s') = None /\ processorRef (refs s') = None /\
   inputAudioContextRef (refs s') = None /\ outputAudioContextRef (refs s') = None /\
   streamRef (refs s') = None /\ gainNodeRef (refs s') = None /\
   sessionPromiseRef (refs s') = None /\ liveSet s' = []) /\
  (forall id, videoIntervalRef (refs s) = Some id ->
              lookupTimer id (timers (browser s')) = None) /\
  (forall c, inputAudioContextRef (refs s) = Some c \/
             outputAudioContextRef (refs s) = Some c ->
             c ∈ closedContexts (browser s')) /\
  (forall st t, streamRef (refs s) = Some st -> t ∈ stream_tracks st ->
                t ∈ stoppedTracks (browser s')) /\
  (forall p, processorRef (refs s) = Some p ->
             sp_id p ∈ disconnectedNodes (browser s')) /\
  (forall id, id ∈ liveSet s -> started (nodes (browser s)) id = true ->
              stopped (nodes (browser s')) id = true) /\
  returns stopSession s' /\
  exec stopSession s' = s'.
Proof.
  intros s'. subst s'. unfold returns, exec. rewrite !stopSession_spec. cbn [fst snd].
  split; [now exists tt|].
  split; [now repeat split|].
  split.
  { intros id E. cbn. rewrite E. apply lookupTimer_filter. }
  split.
  { intros c [E|E]; cbn; rewrite E; cbn; rewrite !elem_of_app, !list_elem_of_singleton; auto. }
  split.
  { intros st t E I. cbn. rewrite E. cbn. rewrite elem_of_app. auto. }
  split.
  { intros p E. cbn. rewrite E. cbn. rewrite elem_of_app, list_elem_of_singleton. auto. }
  split.
  { intros id I S. cbn. now apply stopped_stopAll. }
  split; [now exists tt|].
  destruct_session s. unfold afterStop. cbn. now rewrite !app_nil_r.
Qed.

(* ===================================================================== *)
(** ** The message handler, step by step *)

Section MessageFacts.
Context `{AudioUtils}.

Lemma insert_snoc {A} (l : list A) (x y : A) :
  <[length l := y]> (l ++ [x]) = l ++ [y].
Proof.
  replace (length l) with (length l + 0)%nat at 1 by lia.
  now rewrite insert_app_r.
Qed.

Lemma forallb_started_stopOne ns j l :
  forallb (started (stopOne ns j)) l = forallb (started ns) l.
Proof.
  induction l as [|x l IH]; [reflexivity|]. cbn.
  now rewrite started_stopOne, IH.
Qed.

Lemma forEach_stop srcs s :
  forallb (started (nodes (browser s))) srcs = true ->
  forEach srcs source_stop s
  = (Normal tt, on_browser (set_nodes (stopAll (nodes (browser s)) srcs)) s).
Proof.
  revert s. induction srcs as [|id srcs IH]; intros s L.
  - destruct_session s. reflexivity.
  - destruct_session s. cbn in L. apply andb_prop in L as [S L].
    cbn [forEach]. unfold bind at 1.
    unfold stopAll. cbn [fold_left]. unfold stopOne at 2.
    unfold source_stop. js. unfold started in S.
    destruct (nd !! id) as [n|] eqn:E; [|discriminate].
    destruct (node_startedAt n) eqn:F; [|discriminate]. js.
    rewrite IH.
    + reflexivity.
    + cbn. rewrite <- L.
      etrans; [|apply (forallb_started_stopOne nd id srcs)].
      unfold stopOne. now rewrite E, F.
Qed.

(** Whatever [stop] does, it touches the nodes only. *)
Lemma forEach_stop_frame srcs s :
  let s' := snd (forEach srcs source_stop s) in
  react s' = react s /\ refs s' = refs s /\
  length (nodes (browser s')) = length (nodes (browser s)) /\
  (forall id, started (nodes (browser s')) id = started (nodes (browser s)) id).
Proof.
  revert s. induction srcs as [|id srcs IH]; intros s.
  - cbn. auto.
  - cbn [forEach]. unfold bind at 1.
    destruct (source_stop id s) as [[[]|e] s1] eqn:E.
    + specialize (IH s1). cbn zeta in *. destruct IH as (R1 & R2 & R3 & R4).
      unfold source_stop in E. destruct_session s. revert E. js.
      destruct (nd !! id) as [n|] eqn:F; js;
        [destruct (node_startedAt n) eqn:G; js|]; intros E; inversion E; subst s1;
        cbn in *.
      rewrite R1, R2, R3, length_insert. repeat split; try reflexivity.
      intros j. rewrite R4.
      assert (X := started_stopOne nd id j). unfold stopOne in X.
      now rewrite F, G in X.
    + cbn. unfold source_stop in E. destruct_session s. revert E. js.
      destruct (nd !! id) as [n|] eqn:F; js;
        [destruct (node_startedAt n) eqn:G; js|]; intros E; inversion E; subst s1;
        cbn; auto.
Qed.

Lemma handleInterrupted_false m s :
  msg_interrupted m = false -> handleInterrupted m s = (Normal tt, s).
Proof. intros E. unfold handleInterrupted. now rewrite E. Qed.

Lemma handleInterrupted_true m s :
  msg_interrupted m = true -> live_started s = true ->
  handleInterrupted m s = (Normal tt, interrupted s).
Proof.
  intros E L. unfold handleInterrupted. rewrite E.
  unfold bind at 1. unfold gets at 1. unfold bind at 1.
  rewrite forEach_stop by exact L.
  destruct_session s. reflexivity.
Qed.

Lemma playChunk_ok p buf s :
  p_decoded p = Normal buf ->
  is_Some (gainNodeRef (refs s)) ->
  0 <= cursor s ->
  playChunk p s = (Normal tt, enqueued buf s).
Proof.
  intros D [g G] C. destruct_session s. cbn in G, C. subst gn.
  unfold playChunk, createBufferSource, source_connect, source_start,
    sources_add, enqueued. rewrite D. js.
  rewrite list_lookup_middle by reflexivity. js.
  apply Qle_bool_iff in C. rewrite C. js.
  now rewrite insert_snoc.
Qed.

Lemma playChunk_rejected p e s :
  p_decoded p = Throw e -> playChunk p s = (Throw e, s).
Proof. intros D. unfold playChunk. rewrite D. reflexivity. Qed.

End MessageFacts.

Section HandlerFacts.
Context `{AudioUtils}.

Lemma canPlay_Some s ctx :
  canPlay s = Some ctx ->
  outputAudioContextRef (refs s) = Some ctx /\ is_Some (gainNodeRef (refs s)).
Proof.
  unfold canPlay. destruct (outputAudioContextRef (refs s)); [|discriminate].
  destruct (gainNodeRef (refs s)); [|discriminate].
  intros [= ->]. eauto.
Qed.

(** A message whose payload decodes. *)
Lemma onmessage_accepted now m s ctx buf :
  canPlay s = Some ctx ->
  chunkOf ctx m = Some (Normal buf) ->
  0 <= JsMath.max (cursor s) now ->
  onmessage now m s = handleInterrupted m (enqueued buf (synced now s)).
Proof.
  intros P D C. apply canPlay_Some in P as [O [g G]].
  unfold chunkOf, decodePayload in D.
  destruct (truthy (msg_data m)) as [b64|] eqn:T; [|discriminate].
  cbn in D. destruct (base64ToBytes b64) as [bytes|] eqn:B; [|discriminate].
  injection D as D.
  unfold onmessage, onmessage_begin.
  destruct_session s. cbn in O, G, C. subst oc gn. js. rewrite T, B. js.
  unfold onmessage_resume. unfold bind at 1, try_catch.
  rewrite (playChunk_ok _ buf); [reflexivity|exact D|cbn; eauto|exact C].
Qed.

(** A message whose payload does not decode. *)
Lemma onmessage_malformed now m s ctx e :
  canPlay s = Some ctx ->
  chunkOf ctx m = Some (Throw e) ->
  onmessage now m s = handleInterrupted m (synced now s).
Proof.
  intros P D. apply canPlay_Some in P as [O [g G]].
  unfold chunkOf, decodePayload in D.
  destruct (truthy (msg_data m)) as [b64|] eqn:T; [|discriminate].
  cbn in D.
  unfold onmessage, onmessage_begin.
  destruct_session s. cbn in O, G. subst oc gn. js. rewrite T.
  destruct (base64ToBytes b64) as [bytes|] eqn:B; js.
  - injection D as D.
    unfold onmessage_resume. unfold bind at 1, try_catch.
    rewrite (playChunk_rejected _ e) by exact D. reflexivity.
  - unfold synced, cursor. js. now destruct (handleInterrupted m _) as [[[]|?] ?].
Qed.

(** A message without audio, or a session that cannot play. *)
Lemma onmessage_skipped now m s :
  truthy (msg_data m) = None \/ canPlay s = None ->
  onmessage now m s = handleInterrupted m s.
Proof.
  intros D. unfold onmessage, onmessage_begin. unfold canPlay in D.
  destruct_session s. cbn in D. js.
  destruct (truthy (msg_data m)) as [b64|] eqn:T.
  - destruct D as [D|D]; [discriminate|].
    destruct oc, gn; try discriminate; js;
      now destruct (handleInterrupted m _) as [[[]|?] ?].
  - js. now destruct (handleInterrupted m _) as [[[]|?] ?].
Qed.

End HandlerFacts.

(* ===================================================================== *)
(** ** The playback timeline *)


Lemma elem_of_Set_add x l : x ∈ Set_add x l.
Proof.
  unfold Set_add. destruct (bool_decide (x ∈ l)) eqn:E.
  - now apply bool_decide_eq_true in E.
  - apply elem_of_app. right. now apply list_elem_of_singleton.
Qed.

Section Timeline.
Context `{AudioUtils}.


Lemma max_nonneg c now : 0 <= now -> 0 <= JsMath.max c now.
Proof.
  intros N. eapply Qle_trans; [exact N|apply JsMathFacts.max_ge_r].
Qed.


Lemma nodes_enqueued buf now s :
  nodes (browser (enqueued buf (synced now s))) =
  nodes (browser s) ++ [{| node_buffer := buf;
                           node_startedAt := Some (JsMath.max (cursor s) now);
                           node_stopped := false |}].
Proof. now destruct_session s. Qed.


End Timeline.

(* ===================================================================== *)
(** ** What every message leaves in place *)

Lemma started_app_l ns extra j :
  started ns j = true -> started (ns ++ extra) j = true.
Proof.
  unfold started. destruct (ns !! j) as [n|] eqn:E; [|discriminate].
  rewrite lookup_app_l by (eapply lookup_lt_Some; eauto). now rewrite E.
Qed.

Lemma forallb_started_app ns extra l :
  forallb (started ns) l = true -> forallb (started (ns ++ extra)) l = true.
Proof.
  induction l as [|x l IH]; [reflexivity|]. cbn.
  intros [S L]%andb_prop. now rewrite started_app_l, IH.
Qed.

Lemma forallb_Set_add (f : nat -> bool) x l :
  forallb f l = true -> f x = true -> forallb f (Set_add x l) = true.
Proof.
  intros L X. unfold Set_add. destruct (bool_decide (x ∈ l)); [exact L|].
  rewrite forallb_app, L. cbn. now rewrite X.
Qed.

Lemma elem_of_Set_add_mono x y l : y ∈ l -> y ∈ Set_add x l.
Proof.
  intros I. unfold Set_add. destruct (bool_decide (x ∈ l)); [exact I|].
  apply elem_of_app. now left.
Qed.

Lemma extends_refl s : extends s s.
Proof.
  constructor; auto; [apply Qle_refl|]. exists []. now rewrite app_nil_r.
Qed.

Lemma extends_synced now s : extends s (synced now s).
Proof.
  destruct_session s. constructor; cbn; auto.
  - apply JsMathFacts.max_ge_l.
  - exists []. now rewrite app_nil_r.
Qed.

Lemma extends_abandoned buf s : extends s (abandoned buf s).
Proof.
  destruct_session s. constructor; cbn; auto.
  - apply Qle_refl.
  - eauto.
  - unfold live_started. cbn. apply forallb_started_app.
Qed.

Lemma extends_enqueued buf s : extends s (enqueued buf s).
Proof.
  destruct_session s. constructor; cbn; auto.
  - pose proof (ab_duration_nonneg buf). unfold cursor. cbn. lra.
  - eauto.
  - intros id. apply elem_of_Set_add_mono.
  - unfold live_started. cbn. intros L. apply forallb_Set_add.
    + now apply forallb_started_app.
    + unfold started. now rewrite list_lookup_middle.
Qed.

Lemma extends_trans s x y : extends s x -> extends x y -> extends s y.
Proof.
  intros [R1 C1 [e1 N1] L1 S1 P1] [R2 C2 [e2 N2] L2 S2 P2].
  constructor; try congruence; auto.
  - eapply Qle_trans; eauto.
  - exists (e1 ++ e2). now rewrite N2, N1, app_assoc.
Qed.

Section Shape.
Context `{AudioUtils}.

Lemma playChunk_unplayable p buf s :
  p_decoded p = Normal buf ->
  gainNodeRef (refs s) = None \/ ~ 0 <= cursor s ->
  exists e, playChunk p s = (Throw e, abandoned buf s).
Proof.
  intros D U. destruct_session s. cbn in U.
  unfold playChunk, createBufferSource, source_connect, source_start,
    sources_add, abandoned. rewrite D. js.
  destruct gn as [g|]; js.
  - destruct U as [U|U]; [discriminate|].
    rewrite list_lookup_middle by reflexivity. js.
    destruct (Qle_bool 0 cur) eqn:E; [apply Qle_bool_iff in E; contradiction|].
    js. eauto.
  - eauto.
Qed.

Lemma playChunk_extends p s : extends s (snd (playChunk p s)).
Proof.
  destruct (p_decoded p) as [buf|e] eqn:D.
  - destruct (gainNodeRef (refs s)) as [g|] eqn:G.
    + destruct (Qlt_le_dec (cursor s) 0) as [L|L].
      * destruct (playChunk_unplayable p buf s D) as [e E].
        { right. now apply Qlt_not_le. }
        rewrite E. apply extends_abandoned.
      * rewrite (playChunk_ok p buf s D); [apply extends_enqueued| |exact L].
        rewrite G. eauto.
    + destruct (playChunk_unplayable p buf s D) as [e E]; [now left|].
      rewrite E. apply extends_abandoned.
  - rewrite (playChunk_rejected p e s D). apply extends_refl.
Qed.

(** Every [onmessage] is: something that [extends] the session, then
    lines 213-218. *)
Lemma onmessage_resume_shape p s :
  exists x, extends s x /\
            onmessage_resume p s = handleInterrupted (p_message p) x.
Proof.
  exists (snd (playChunk p s)). split; [apply playChunk_extends|].
  unfold onmessage_resume, bind, try_catch, ret.
  now destruct (playChunk p s) as [[[]|e] x].
Qed.

Lemma onmessage_shape now m s :
  exists x, extends s x /\ onmessage now m s = handleInterrupted m x.
Proof.
  destruct (truthy (msg_data m)) as [b64|] eqn:T.
  - destruct (canPlay s) as [ctx|] eqn:P.
    + apply canPlay_Some in P as [O [g G]].
      destruct (base64ToBytes b64) as [bytes|e] eqn:B.
      * destruct (onmessage_resume_shape
                    {| p_decoded := decodeAudioData bytes ctx AUDIO_OUTPUT_SAMPLE_RATE;
                       p_message := m |} (synced now s)) as (x & X & E).
        exists x. split; [eapply extends_trans; [apply extends_synced|exact X]|].
        cbn [p_message] in E. rewrite <- E.
        unfold onmessage, onmessage_begin.
        destruct_session s. cbn in O, G. subst oc gn.
        js. rewrite T, B. reflexivity.
      * exists (synced now s). split; [apply extends_synced|].
        unfold onmessage, onmessage_begin.
        destruct_session s. cbn in O, G. subst oc gn. js. rewrite T, B. js.
        unfold synced, cursor. js.
        now destruct (handleInterrupted m _) as [[[]|?] ?].
    + exists s. split; [apply extends_refl|].
      apply onmessage_skipped. now right.
  - exists s. split; [apply extends_refl|].
    apply onmessage_skipped. now left.
Qed.

(** Lines 213-218 on any session: the cursor is reset, or it is left
    where it was. *)
Lemma handleInterrupted_cursor m x :
  let s' := snd (handleInterrupted m x) in
  (msg_interrupted m = false /\ s' = x) \/
  (msg_interrupted m = true /\ (cursor s' = 0 \/ cursor s' = cursor x)).
Proof.
  unfold handleInterrupted. destruct (msg_interrupted m) eqn:I; [right|left; auto].
  split; [reflexivity|].
  pose proof (forEach_stop_frame (sourcesRef (refs x)) x) as F. cbn zeta in F.
  unfold bind, gets, sources_clear, modify. cbn.
  destruct (forEach (sourcesRef (refs x)) source_stop x) as [[[]|e] x1].
  - left. now destruct_session x1.
  - right. cbn in *. unfold cursor. now rewrite (proj1 (proj2 F)).
Qed.

End Shape.

Lemma stopAll_lookup ns srcs id n :
  ns !! id = Some n ->
  exists n', stopAll ns srcs !! id = Some n' /\
             node_buffer n' = node_buffer n /\
             node_startedAt n' = node_startedAt n.
Proof.
  revert ns n. induction srcs as [|j srcs IH]; intros ns n E.
  - exists n. auto.
  - cbn. assert (X := stopOne_lookup ns j id). rewrite E in X. cbn in X.
    destruct (IH _ _ X) as (n' & E' & B & S).
    exists n'. split; [exact E'|].
    destruct (bool_decide (id = j) && started ns j); cbn in *; auto.
Qed.

Lemma live_started_elem s id :
  live_started s = true -> id ∈ liveSet s -> started (nodes (browser s)) id = true.
Proof.
  unfold live_started. rewrite forallb_forall. intros L I.
  apply L. now apply list_elem_of_In.
Qed.

Section Interruption.
Context `{AudioUtils}.

Lemma synced_twice now now' s :
  now <= now' ->
  JsMath.max (cursor (synced now s)) now' = JsMath.max (cursor s) now'.
Proof.
  intros L. destruct_session s. cbn. now apply JsMathFacts.max_max.
Qed.

(** C4 (as the code has it).  A payload that does not decode creates no
    handle and leaves the live set as it was; the handler does not
    raise.  The cursor is not advanced by any duration: it is only
    brought up to the output clock, max(cursor, current time), by the
    synchronisation that precedes decoding.  A later message that
    carries audio is then handled exactly as if the malformed one had
    never arrived. *)
Theorem malformed_chunk_dropped s ctx now m e :
  canPlay s = Some ctx ->
  chunkOf ctx m = Some (Throw e) ->
  msg_interrupted m = false ->
  let s' := exec (onmessage now m) s in
  returns (onmessage now m) s /\
  nodes (browser s') = nodes (browser s) /\
  liveSet s' = liveSet s /\
  cursor s' = JsMath.max (cursor s) now /\
  forall now' m' c,
    now <= now' -> chunkOf ctx m' = Some c ->
    onmessage now' m' s' = onmessage now' m' s.
Proof.
  intros P D I s'. subst s'. unfold returns, exec.
  rewrite (onmessage_malformed now m s ctx e P D), handleInterrupted_false by exact I.
  cbn [fst snd]. split; [now exists tt|].
  split; [now destruct_session s|]. split; [now destruct_session s|].
  split; [now destruct_session s|].
  intros now' m' c L D'.
  unfold chunkOf in D'.
  destruct (truthy (msg_data m')) as [b64|] eqn:T; [|discriminate].
  apply canPlay_Some in P as [O [g G]].
  pose proof (synced_twice now now' s L) as X.
  unfold onmessage, onmessage_begin.
  destruct_session s. cbn in O, G, X. subst oc gn. js. rewrite T, X.
  reflexivity.
Qed.


(** C10.  A message that carries both a chunk that decodes and the
    interruption flag: the chunk's handle is created and started at
    max(cursor, current time) and then stopped with the rest of the live
    set; when the handler is done the live set is empty and the cursor
    is zero. *)
Theorem interrupting_message_audio_discarded s ctx now m buf :
  canPlay s = Some ctx ->
  chunkOf ctx m = Some (Normal buf) ->
  msg_interrupted m = true ->
  0 <= now ->
  live_started s = true ->
  let s' := exec (onmessage now m) s in
  returns (onmessage now m) s /\
  (exists n, nodes (browser s') !! length (nodes (browser s)) = Some n /\
             node_buffer n = buf /\
             node_startedAt n = Some (JsMath.max (cursor s) now) /\
             node_stopped n = true) /\
  liveSet s' = [] /\
  cursor s' = 0.
Proof.
  intros P D I N L s'. subst s'. unfold returns, exec.
  rewrite (onmessage_accepted now m s ctx buf P D) by now apply max_nonneg.
  set (x := enqueued buf (synced now s)).
  assert (X : extends s x).
  { eapply extends_trans; [apply extends_synced|apply extends_enqueued]. }
  pose proof (ext_started _ _ X L) as Lx.
  rewrite (handleInterrupted_true m x I Lx). cbn [fst snd].
  split; [now exists tt|].
  split; [|split; now destruct_session s].
  assert (In : length (nodes (browser s)) ∈ liveSet x).
  { unfold x. destruct_session s. cbn. apply elem_of_Set_add. }
  pose proof (live_started_elem x _ Lx In) as S.
  pose proof (stopped_stopAll _ (liveSet x) _ In S) as St.
  assert (E : nodes (browser x) !! length (nodes (browser s)) =
              Some {| node_buffer := buf;
                      node_startedAt := Some (JsMath.max (cursor s) now);
                      node_stopped := false |}).
  { unfold x. rewrite nodes_enqueued. now apply list_lookup_middle. }
  destruct (stopAll_lookup _ (liveSet x) _ _ E) as (n' & E' & B & T).
  exists n'. unfold stopped in St. rewrite E' in St.
  assert (Nd : nodes (browser (interrupted x)) = stopAll (nodes (browser x)) (liveSet x))
    by now destruct_session x.
  rewrite Nd. auto.
Qed.

End Interruption.

(* ===================================================================== *)
(** ** The cursor over the whole event loop *)

Section Cursor.
Context `{AudioUtils}.

Lemma stopSession_cursor s : cursor (exec stopSession s) = cursor s.
Proof. unfold exec. rewrite stopSession_spec. now destruct_session s. Qed.

Lemma startSession_cursor env s :
  cursor (exec (startSession env) s) = if acquires env then 0 else cursor s.
Proof.
  unfold exec, startSession. unfold bind at 1, gets at 1.
  unfold bind at 1. rewrite stopSession_spec.
  destruct_session s. destruct env as [key ictx ires octx ores gain media sess].
  unfold afterStop, setErrorMsg, setStatus, acquires. js.
  destruct key; js; [|reflexivity].
  destruct ires as [[]|]; js; [|reflexivity].
  destruct ores as [[]|]; js; [|reflexivity].
  destruct media; js; reflexivity.
Qed.

Lemma quiet_cursor ev s :
  resets ev = false -> (forall t m, ev <> EvMessage t m) ->
  cursor (step ev s) = cursor s.
Proof.
  intros R NM. unfold step, exec.
  destruct ev; try discriminate; cbn [handler].
  - apply stopSession_cursor.
  - destruct_session s. unfold onopen, startVideoStream, setInterval,
      clearInterval, setStatus. js.
    destruct cb; js; [|reflexivity].
    destruct ic; js; [|reflexivity]. destruct sr; js; [|reflexivity].
    destruct vi; js; reflexivity.
  - now destruct (NM currentTime message).
  - destruct_session s. unfold onclose. js. destruct cb; js; [|reflexivity].
    now rewrite stopSession_spec.
  - destruct_session s. unfold onerror, setErrorMsg. js.
    destruct cb; js; [|reflexivity]. now rewrite stopSession_spec.
  - destruct_session s. unfold onconnectfailed, setErrorMsg, setStatus. js.
    destruct cb; js; [|reflexivity]. now rewrite stopSession_spec.
  - destruct_session s. unfold onaudioprocess, setVolumeLevel, send. js.
    destruct pr as [[? [[] ?]]|]; js; try reflexivity.
    destruct sp; js; reflexivity.
  - destruct_session s. unfold videoTick, send. js.
    destruct (lookupTimer id tm) as [[? []]|]; js; try reflexivity.
    destruct frame; js; [|reflexivity].
    destruct sp; js; reflexivity.
  - now destruct_session s.
  - now destruct_session s.
  - now destruct_session s.
  - now destruct_session s.
Qed.

Lemma message_cursor t m s :
  let s' := exec (onmessage t m) s in
  (msg_interrupted m = true /\ cursor s' = 0) \/ cursor s <= cursor s'.
Proof.
  cbn zeta. unfold exec.
  destruct (onmessage_shape t m s) as (x & X & E). rewrite E.
  destruct (handleInterrupted_cursor m x) as [[I ->]|[I [C|C]]].
  - right. apply (ext_cursor _ _ X).
  - left. auto.
  - right. rewrite C. apply (ext_cursor _ _ X).
Qed.

(** C8 (as the code has it).  Across every event the cursor does not
    decrease, except that a message with the interruption flag and a
    session start may set it to zero.  Teardown is not one of the
    exceptions: [stopSession] leaves the cursor where it is. *)
Theorem cursor_monotone_between_resets :
  (forall ev s,
      let s' := step ev s in
      if resets ev then cursor s' = 0 \/ cursor s <= cursor s'
      else cursor s <= cursor s') /\
  (forall s, cursor (exec stopSession s) = cursor s).
Proof.
  split; [|exact stopSession_cursor].
  intros ev s. cbn zeta.
  destruct ev as [env| |pid|t m| | | | | | | | |] eqn:Ev;
    try (rewrite <- Ev; rewrite quiet_cursor by (subst; (reflexivity || discriminate));
         subst; cbn; apply Qle_refl).
  - cbn [resets]. unfold step. cbn [handler].
    unfold cursor at 1 3. fold (cursor (exec (startSession env) s)).
    rewrite startSession_cursor.
    destruct (acquires env); [now left|right; apply Qle_refl].
  - cbn [resets]. unfold step, exec. cbn [handler].
    assert (M : (msg_interrupted m = true /\ cursor (exec (onmessage t m) s) = 0)
                \/ cursor s <= cursor (exec (onmessage t m) s))
      by apply message_cursor.
    unfold bind, gets. unfold exec in M.
    destruct (callbacks (browser s)).
    + destruct M as [[I C]|C].
      * rewrite I. now left.
      * destruct (msg_interrupted m); [right|]; exact C.
    + cbn. destruct (msg_interrupted m); [right|]; apply Qle_refl.
Qed.

End Cursor.

(* ===================================================================== *)
(** ** A reset while handlers are suspended *)

Lemma stopAll_length ns srcs : length (stopAll ns srcs) = length ns.
Proof.
  revert ns. induction srcs as [|j srcs IH]; intros ns; [reflexivity|].
  cbn. unfold stopAll in IH. rewrite IH. unfold stopOne.
  destruct (ns !! j) as [n|]; [|reflexivity].
  destruct (node_startedAt n); [apply length_insert|reflexivity].
Qed.

Lemma delete_snoc {A} (l : list A) (x : A) : delete (length l) (l ++ [x]) = l.
Proof.
  induction l as [|y l IH]; [reflexivity|].
  change (y :: delete (length l) (l ++ [x]) = y :: l). now f_equal.
Qed.

Section Reset.
Context `{AudioUtils}.

Lemma begin_accepted now m s ctx buf :
  canPlay s = Some ctx ->
  chunkOf ctx m = Some (Normal buf) ->
  exists p, p_decoded p = Normal buf /\ p_message p = m /\
            onmessage_begin now m s = (Normal (Some p), synced now s).
Proof.
  intros P D. apply canPlay_Some in P as [O [g G]].
  unfold chunkOf, decodePayload in D.
  destruct (truthy (msg_data m)) as [b64|] eqn:T; [|discriminate].
  cbn in D. destruct (base64ToBytes b64) as [bytes|] eqn:B; [|discriminate].
  injection D as D.
  exists {| p_decoded := decodeAudioData bytes ctx AUDIO_OUTPUT_SAMPLE_RATE;
            p_message := m |}.
  split; [exact D|split; [reflexivity|]].
  unfold onmessage_begin. destruct_session s. cbn in O, G. subst oc gn.
  js. rewrite T, B. reflexivity.
Qed.

Lemma begin_interruption now s :
  live_started s = true ->
  onmessage_begin now interruption s = (Normal None, interrupted s).
Proof.
  intros L. unfold onmessage_begin. cbn [interruption msg_data truthy].
  unfold bind at 1, gets at 1. cbn match. unfold bind.
  now rewrite (handleInterrupted_true interruption s eq_refl L).
Qed.

Lemma interrupted_forgets c s :
  interrupted (on_refs (set_nextStartTimeRef c) s) = interrupted s.
Proof. now destruct_session s. Qed.

End Reset.

(* ===================================================================== *)
(** ** Capture, mute and video *)

Section Capture.
Context `{AudioUtils}.

(** C2 (as the code has it).  A capture tick never raises.  When the
    mute flag its handler sees is clear, the volume of the window is
    published and the window is encoded and submitted to the channel
    (if there is one).  When that flag is set the handler returns at
    once: nothing is published and nothing is sent. *)
Theorem capture_tick_gated_by_mute (sc : Scope) (w : SampleWindow) (s : Session) :
  let s' := exec (onaudioprocess sc w) s in
  returns (onaudioprocess sc w) s /\
  if scope_isMuted sc then s' = s
  else volumeLevel (react s') = volumeOf w /\
       outbox (browser s') =
         outbox (browser s) ++
           match sessionPromiseRef (refs s) with
           | Some _ => [AudioMedia (createPcmBlob w)]
           | None => []
           end.
Proof.
  cbn zeta. unfold returns, exec, onaudioprocess, setVolumeLevel, send.
  destruct_session s. destruct (scope_isMuted sc); js.
  - split; [now exists tt|reflexivity].
  - destruct sp; js; (split; [now exists tt|]); rewrite ?app_nil_r; auto.
Qed.

(** C3 (what the code does instead).  The interval and the capture
    handler keep the [isMuted] and [isVideoEnabled] of the render in
    which the session was started.  Driving the toggles changes the
    state cells and nothing a running handler looks at: a window that
    comes after muting is still encoded and sent, a window that comes
    after un-muting a session that was started muted is still dropped,
    and a frame that comes after disabling video is still sent. *)
Theorem toggles_not_seen_by_running_handlers :
  (forall w s,
      browser (step (EvAudioProcess w) (step EvToggleMute s)) =
      browser (step (EvAudioProcess w) s)) /\
  (forall id frame s,
      browser (step (EvVideoTick id frame) (step EvToggleVideo s)) =
      browser (step (EvVideoTick id frame) s)) /\
  (forall w,
      let s := run [EvStart Reference.goodEnv; EvOpen 5; EvToggleMute] initial in
      isMuted (react s) = true /\
      outbox (browser (step (EvAudioProcess w) s)) = [AudioMedia (createPcmBlob w)]) /\
  (forall w,
      let s := run [EvStart Reference.goodEnv; EvOpen 5; EvToggleMute; EvStop;
                    EvStart Reference.goodEnv; EvOpen 6; EvToggleMute] initial in
      isMuted (react s) = false /\
      outbox (browser (step (EvAudioProcess w) s)) = []) /\
  (forall frame,
      let s := run [EvStart Reference.goodEnv; EvOpen 5; EvToggleVideo] initial in
      isVideoEnabled (react s) = false /\
      outbox (browser (step (EvVideoTick 1 (Some frame)) s))
        = [ImageMedia "image/jpeg" frame]).
Proof.
  split; [|split; [|split; [|split]]].
  - intros w s. destruct_session s. unfold step, exec. cbn [handler].
    unfold onToggleMute, setIsMuted, onaudioprocess, setVolumeLevel, send. js.
    destruct pr as [[? [[] ?]]|]; js; try reflexivity.
    destruct sp; js; reflexivity.
  - intros id frame s. destruct_session s. unfold step, exec. cbn [handler].
    unfold onToggleVideo, setIsVideoEnabled, videoTick, send. js.
    destruct (lookupTimer id tm) as [[? []]|]; js; try reflexivity.
    destruct frame; js; [|reflexivity].
    destruct sp; js; reflexivity.
  - intros w. cbn zeta. split; reflexivity.
  - intros w. cbn zeta. split; reflexivity.
  - intros frame. cbn zeta. split; reflexivity.
Qed.

End Capture.

(* ===================================================================== *)
(** ** Channel failures *)

Section Failures.
Context `{AudioUtils}.

(** C5 (what the code does instead).  After the [onerror] callback, and
    after the rejection handler of the session promise, the teardown has
    run and the message is kept, but the status is [disconnected], not
    [error]: [stopSession] sets the status last.  From [error], reached
    when [startSession] itself fails, the dismiss button leads to
    [disconnected]. *)
Theorem channel_failure_ends_disconnected (err : JsError) (s : Session) :
  (let s' := exec (onerror err) s in
   status (react s') = disconnected /\
   errorMsg (react s') = Some "Connection error. Please try again."%string /\
   refs s' = refs (exec stopSession s) /\ browser s' = browser (exec stopSession s)) /\
  (let s' := exec (onconnectfailed err) s in
   status (react s') = disconnected /\
   errorMsg (react s') = Some (message_or err "Failed to connect to Gemini.") /\
   refs s' = refs (exec stopSession s) /\ browser s' = browser (exec stopSession s)) /\
  status (react (exec dismissError s)) = disconnected.
Proof.
  cbn zeta. unfold exec, onerror, onconnectfailed, setErrorMsg, setStatus.
  unfold bind, modify. rewrite !stopSession_spec. cbn [fst snd].
  destruct_session s. repeat split.
Qed.

End Failures.

(* ===================================================================== *)
(** ** The live set holds started handles only

    The hypothesis of the interruption theorems holds of every session the
    event loop can reach. *)

Lemma forallb_Set_delete (f : nat -> bool) x l :
  forallb f l = true -> forallb f (Set_delete x l) = true.
Proof.
  unfold Set_delete. induction l as [|y l IH]; [reflexivity|].
  intros HL. cbn in HL. apply andb_prop in HL as [Y L]. rewrite filter_cons.
  destruct (decide (y <> x)); cbn; [rewrite Y|]; auto.
Qed.

Section Invariant.
Context `{AudioUtils}.

Lemma startSession_live env s : liveSet (exec (startSession env) s) = [].
Proof.
  unfold exec, startSession. unfold bind at 1, gets at 1.
  unfold bind at 1. rewrite stopSession_spec.
  destruct_session s. destruct env as [key ictx ires octx ores gain media sess].
  unfold afterStop, setErrorMsg, setStatus. js.
  destruct key; js; [|reflexivity].
  destruct ires as [[]|]; js; [|reflexivity].
  destruct ores as [[]|]; js; [|reflexivity].
  destruct media; js; reflexivity.
Qed.

Lemma stopSession_live s : live_started (exec stopSession s) = true.
Proof. unfold exec. now rewrite stopSession_spec. Qed.

Lemma message_live t m s :
  live_started s = true -> live_started (exec (onmessage t m) s) = true.
Proof.
  intros L. unfold exec.
  destruct (onmessage_shape t m s) as (x & X & E). rewrite E.
  pose proof (ext_started _ _ X L) as Lx.
  destruct (msg_interrupted m) eqn:I.
  - rewrite (handleInterrupted_true m x I Lx). now destruct_session x.
  - now rewrite (handleInterrupted_false m x I).
Qed.

Lemma resume_live p s :
  live_started s = true -> live_started (exec (onmessage_resume p) s) = true.
Proof.
  intros L. unfold exec.
  destruct (onmessage_resume_shape p s) as (x & X & E). rewrite E.
  pose proof (ext_started _ _ X L) as Lx.
  destruct (msg_interrupted (p_message p)) eqn:I.
  - rewrite (handleInterrupted_true _ x I Lx). now destruct_session x.
  - now rewrite (handleInterrupted_false _ x I).
Qed.

Lemma live_started_step ev s :
  live_started s = true -> live_started (step ev s) = true.
Proof.
  intros L. unfold step. destruct ev; cbn [handler].
  - unfold live_started. now rewrite startSession_live.
  - apply stopSession_live.
  - unfold exec. destruct_session s. unfold onopen, startVideoStream,
      setInterval, clearInterval, setStatus. js.
    destruct cb; js; [|exact L].
    destruct ic; js; [|exact L]. destruct sr; js; [|exact L].
    destruct vi; js; exact L.
  - unfold exec, bind, gets. pose proof (message_live currentTime message s L) as M.
    unfold exec in M. now destruct (callbacks (browser s)).
  - unfold exec, bind, gets, onclose. pose proof (stopSession_live s) as M.
    unfold exec in M. now destruct (callbacks (browser s)).
  - unfold exec. destruct_session s. unfold onerror, setErrorMsg. js.
    destruct cb; js; [|exact L]. now rewrite stopSession_spec.
  - unfold exec. destruct_session s. unfold onconnectfailed, setErrorMsg, setStatus. js.
    destruct cb; js; [|exact L]. now rewrite stopSession_spec.
  - unfold exec. destruct_session s. unfold onaudioprocess, setVolumeLevel, send. js.
    destruct pr as [[? [[] ?]]|]; js; try exact L.
    destruct sp; js; exact L.
  - unfold exec. destruct_session s. unfold videoTick, send. js.
    destruct (lookupTimer id tm) as [[? []]|]; js; try exact L.
    destruct frame; js; [|exact L].
    destruct sp; js; exact L.
  - destruct_session s. unfold live_started in *. cbn in *.
    now apply forallb_Set_delete.
  - now destruct_session s.
  - now destruct_session s.
  - now destruct_session s.
Qed.

(** X1.  In every session the event loop reaches from the mounted
    component, each handle of the live set is a node on which [start] was
    called: [sources.add] comes after [source.start], and nothing else
    adds to the set. *)
Theorem reachable_live_started (evs : list Event) :
  live_started (run evs initial) = true.
Proof.
  assert (G : forall s, live_started s = true -> live_started (run evs s) = true).
  { induction evs as [|ev evs IH]; intros s L; [exact L|].
    cbn. apply IH. now apply live_started_step. }
  apply G. reflexivity.
Qed.

Lemma live_started_turn t l :
  live_started (session l) = true -> live_started (session (turn t l)) = true.
Proof.
  intros L. destruct t as [now m|i|ev]; cbn [turn].
  - destruct (truthy (msg_data m)) as [b64|] eqn:T.
    + destruct (canPlay (session l)) as [ctx|] eqn:P.
      * destruct (base64ToBytes b64) as [bytes|e] eqn:B.
        -- assert (D : chunkOf ctx m =
                       Some (decodeAudioData bytes ctx AUDIO_OUTPUT_SAMPLE_RATE)).
           { unfold chunkOf, decodePayload. rewrite T. cbn. now rewrite B. }
           assert (E : onmessage_begin now m (session l) =
                       (Normal (Some {| p_decoded :=
                                          decodeAudioData bytes ctx AUDIO_OUTPUT_SAMPLE_RATE;
                                        p_message := m |}), synced now (session l))).
           { apply canPlay_Some in P as [O [g G]].
             unfold onmessage_begin. destruct (session l) as [r [] b].
             cbn in O, G. subst. js. rewrite T, B. reflexivity. }
           rewrite E. cbn. apply (ext_started _ _ (extends_synced now _) L).
        -- pose proof (message_live now m (session l) L) as M.
           unfold exec, onmessage, bind in M.
           destruct (onmessage_begin now m (session l)) as [[[p|]|e'] s'] eqn:E;
             cbn in *; try exact M.
           exfalso. apply canPlay_Some in P as [O [g G]].
           unfold onmessage_begin in E. destruct (session l) as [r [] b].
           cbn in O, G. subst. revert E. js. rewrite T, B. js.
           now destruct (handleInterrupted m _) as [[[]|?] ?].
      * pose proof (message_live now m (session l) L) as M.
        unfold exec in M. rewrite onmessage_skipped in M by now right.
        unfold onmessage_begin, canPlay in *. unfold bind at 1, gets at 1.
        rewrite T.
        destruct (outputAudioContextRef (refs (session l))),
                 (gainNodeRef (refs (session l))); try discriminate;
          unfold bind, ret; now destruct (handleInterrupted m _) as [[[]|?] ?].
    + pose proof (message_live now m (session l) L) as M.
      unfold exec in M. rewrite onmessage_skipped in M by now left.
      unfold onmessage_begin. unfold bind at 1, gets at 1. rewrite T.
      unfold bind, ret. now destruct (handleInterrupted m _) as [[[]|?] ?].
  - destruct (awaiting l !! i); [|exact L]. cbn. now apply resume_live.
  - cbn. now apply live_started_step.
Qed.

End Invariant.

(* ===================================================================== *)
(** ** The theorems on concrete sessions *)

Module Examples.
Import Reference.

Lemma muted_tick_publishes_no_volume :
  isMuted (react startedMuted) = true /\
  step (EvAudioProcess loud) startedMuted = startedMuted /\
  ~ volumeLevel (react (step (EvAudioProcess loud) startedMuted)) == volumeOf loud.
Proof.
  split; [reflexivity|split; [reflexivity|]].
  vm_compute. discriminate.
Qed.

Lemma malformed_chunk_moves_cursor :
  chunkOf 2 malformed = Some (Throw DecodeError) /\
  ~ cursor (exec (onmessage 5 malformed) live) == cursor live.
Proof.
  split; [reflexivity|]. vm_compute. discriminate.
Qed.

Lemma malformed_chunk_dropped_witness :
  nodes (browser (exec (onmessage 5 malformed) live)) = nodes (browser live) /\
  liveSet (exec (onmessage 5 malformed) live) = liveSet live /\
  cursor (exec (onmessage 5 malformed) live) = JsMath.max (cursor live) 5 /\
  onmessage 6 (chunk 3) (exec (onmessage 5 malformed) live)
    = onmessage 6 (chunk 3) live.
Proof.
  destruct (malformed_chunk_dropped (H := utils) live 2%nat 5 malformed DecodeError)
    as (_ & N & L & C & After); [reflexivity|reflexivity|reflexivity|].
  split; [exact N|]. split; [exact L|]. split; [exact C|].
  apply (After 6 (chunk 3) (Normal (frames 3 24000)));
    [unfold Qle; simpl; lia|reflexivity].
Defined.

Lemma stopSession_total_idempotent_witness :
  returns stopSession playing /\
  liveSet (exec stopSession playing) = [] /\
  lookupTimer 1 (timers (browser (exec stopSession playing))) = None /\
  2%nat ∈ closedContexts (browser (exec stopSession playing)) /\
  11%nat ∈ stoppedTracks (browser (exec stopSession playing)) /\
  stopped (nodes (browser (exec stopSession playing))) 0 = true /\
  exec stopSession (exec stopSession playing) = exec stopSession playing.
Proof.
  destruct (stopSession_total_idempotent playing)
    as (R & (_ & _ & _ & _ & _ & _ & _ & L) & T & C & K & _ & S & _ & I).
  split; [exact R|]. split; [exact L|].
  split; [apply T; reflexivity|].
  split; [apply C; right; reflexivity|].
  split; [apply (K {| stream_tracks := [10; 11]%nat |}); [reflexivity|]|].
  { apply elem_of_cons. right. apply elem_of_cons. now left. }
  split; [apply S; [|reflexivity]|exact I].
  apply elem_of_cons. now left.
Defined.


Lemma interrupting_message_audio_discarded_witness :
  canPlay playing = Some 2%nat /\
  chunkOf 2 lastWords = Some (Normal (frames 3 24000)) /\
  live_started playing = true /\
  (exists n, nodes (browser (exec (onmessage 6 lastWords) playing)) !! 1%nat = Some n /\
             node_buffer n = frames 3 24000 /\
             node_startedAt n = Some (JsMath.max (cursor playing) 6) /\
             node_stopped n = true) /\
  liveSet (exec (onmessage 6 lastWords) playing) = [] /\
  cursor (exec (onmessage 6 lastWords) playing) = 0.
Proof.
  split; [reflexivity|]. split; [reflexivity|]. split; [reflexivity|].
  destruct (interrupting_message_audio_discarded (H := utils) playing 2%nat 6
              lastWords (frames 3 24000)) as (_ & N & L & C);
    [reflexivity|reflexivity|reflexivity|unfold Qle; simpl; lia|reflexivity|].
  split; [exact N|]. split; [exact L|exact C].
Defined.

Lemma session_start_rewinds_cursor :
  is_interruption (EvStart goodEnv) = false /\
  is_teardown (EvStart goodEnv) = false /\
  cursor (step (EvStart goodEnv) playing) < cursor playing /\
  ~ cursor (step EvStop playing) == 0 /\
  ~ (forall ev s, is_interruption ev = false -> is_teardown ev = false ->
                  cursor s <= cursor (step ev s)).
Proof.
  split; [reflexivity|]. split; [reflexivity|]. split; [reflexivity|].
  split; [vm_compute; discriminate|].
  intros C. pose proof (C (EvStart goodEnv) playing eq_refl eq_refl) as X.
  vm_compute in X. now apply X.
Qed.

End Examples.

(* ===================================================================== *)
(** ** Starting a session *)

Section Start.
Context `{AudioUtils}.

Lemma startSession_spec env s :
  startSession env s = (Normal tt, afterStart env s).
Proof.
  unfold startSession. unfold bind at 1, gets at 1.
  unfold bind at 1. rewrite stopSession_spec.
  destruct_session s.
  destruct env as [key ictx ires octx ores gain media sess].
  unfold afterStart, failedWith, afterStop, setErrorMsg, setStatus, scopeOf. js.
  destruct key; js; [|reflexivity].
  destruct ires as [[]|]; js; [|reflexivity].
  destruct ores as [[]|]; js; [|reflexivity].
  destruct media; js; reflexivity.
Qed.

Lemma message_or_nonempty e : message_or e "Failed to initialize session." <> ""%string.
Proof. unfold message_or. now destruct (err_message e). Qed.

(** X3.  Whatever it goes on to do, [startSession] first tears down: the
    browser is left as [stopSession] leaves it (old interval cleared, old
    contexts closed, old tracks and handles stopped, old processor
    disconnected), but for the callbacks a successful start registers;
    and it submits nothing to the channel. *)
Theorem startSession_releases_previous (env : Environment) (s : Session) :
  let s' := exec (startSession env) s in
  let t := exec stopSession s in
  closedContexts (browser s') = closedContexts (browser t) /\
  stoppedTracks (browser s') = stoppedTracks (browser t) /\
  disconnectedNodes (browser s') = disconnectedNodes (browser t) /\
  timers (browser s') = timers (browser t) /\
  nodes (browser s') = nodes (browser t) /\
  outbox (browser s') = outbox (browser s).
Proof.
  cbn zeta. unfold exec. rewrite startSession_spec, stopSession_spec. cbn [snd].
  destruct_session s.
  destruct env as [key ictx ires octx ores gain media sess].
  unfold afterStart, failedWith, afterStop. cbn.
  destruct key; cbn; [|repeat split].
  destruct ires as [[]|e1]; cbn; [|repeat split].
  destruct ores as [[]|e2]; cbn; [|repeat split].
  destruct media as [stream|e3]; cbn; repeat split.
Qed.

(** X4.  When the capture device is refused after both audio contexts
    were opened, [startSession] ends in [error] without closing them:
    they stay referenced and [close] is not called.  The teardown that
    comes next, by itself or at the start of the next [startSession],
    closes both. *)
Theorem failed_start_contexts_closed_by_next_teardown
    (env : Environment) (e : JsError) (s : Session) :
  env_apiKey env = true ->
  env_inputResume env = Normal tt ->
  env_outputResume env = Normal tt ->
  env_getUserMedia env = Throw e ->
  let s' := exec (startSession env) s in
  status (react s') = error /\
  inputAudioContextRef (refs s') = Some (env_inputContext env) /\
  outputAudioContextRef (refs s') = Some (env_outputContext env) /\
  closedContexts (browser s') = closedContexts (browser (exec stopSession s)) /\
  closedContexts (browser (exec stopSession s')) =
    closedContexts (browser s') ++ [env_inputContext env; env_outputContext env] /\
  forall env', closedContexts (browser (exec (startSession env') s')) =
    closedContexts (browser s') ++ [env_inputContext env; env_outputContext env].
Proof.
  intros K I O M. cbn zeta. unfold exec.
  rewrite !startSession_spec, !stopSession_spec. cbn [snd].
  destruct_session s.
  destruct env as [key ictx ires octx ores gain media sess].
  cbn in K, I, O, M. subst.
  unfold afterStart at 1 2 3 4 5 6 7. unfold failedWith, afterStop. cbn.
  repeat split; rewrite <- ?app_assoc; try reflexivity.
  intros env'. destruct env' as [key ictx' ires octx' ores gain' media sess'].
  unfold afterStart, failedWith, afterStop. cbn.
  destruct key; cbn; [|now rewrite <- !app_assoc].
  destruct ires as [[]|e1]; cbn; [|now rewrite <- !app_assoc].
  destruct ores as [[]|e2]; cbn; [|now rewrite <- !app_assoc].
  destruct media as [stream|e3]; cbn; now rewrite <- !app_assoc.
Qed.

End Start.

(* ===================================================================== *)
(** ** Every handler, case by case *)

Section Cases.
Context `{AudioUtils}.

(** The audio part of [onmessage] leaves one of four sessions. *)
Lemma onmessage_cases now m s :
  exists x, onmessage now m s = handleInterrupted m x /\
            (x = s \/ x = synced now s \/
             exists buf, x = enqueued buf (synced now s) \/
                         x = abandoned buf (synced now s)).
Proof.
  destruct (truthy (msg_data m)) as [b64|] eqn:T.
  - destruct (canPlay s) as [ctx|] eqn:P.
    + destruct (chunkOf ctx m) as [[buf|e]|] eqn:D.
      * destruct (Qlt_le_dec (JsMath.max (cursor s) now) 0) as [L|L].
        -- exists (abandoned buf (synced now s)). split; [|eauto 6].
           pose proof P as P'. apply canPlay_Some in P' as [O [g G]].
           unfold chunkOf, decodePayload in D. rewrite T in D. cbn in D.
           destruct (base64ToBytes b64) as [bytes|] eqn:B; [|discriminate].
           injection D as D.
           unfold onmessage, onmessage_begin.
           destruct_session s. cbn in O, G, L. subst oc gn. js. rewrite T, B. js.
           unfold onmessage_resume. unfold bind at 1, try_catch.
           match goal with
           | |- context [playChunk ?p ?x] =>
               destruct (playChunk_unplayable p buf x D) as [e E];
                 [right; now apply Qlt_not_le|rewrite E]
           end.
           reflexivity.
        -- exists (enqueued buf (synced now s)). split; [|eauto 6].
           now apply (onmessage_accepted now m s ctx buf).
      * exists (synced now s). split; [|auto].
        now apply (onmessage_malformed now m s ctx e).
      * unfold chunkOf in D. rewrite T in D. discriminate.
    + exists s. split; [|auto]. apply onmessage_skipped. now right.
  - exists s. split; [|auto]. apply onmessage_skipped. now left.
Qed.

(** A loop of [stop] that is cut short stopped an initial part. *)
Lemma forEach_stop_nodes srcs s :
  exists done,
    nodes (browser (snd (forEach srcs source_stop s)))
    = stopAll (nodes (browser s)) done.
Proof.
  revert s. induction srcs as [|id srcs IH]; intros s.
  - exists []. reflexivity.
  - cbn [forEach]. unfold bind at 1.
    destruct (source_stop id s) as [[[]|e] s1] eqn:E.
    + destruct (IH s1) as [done D]. exists (id :: done). rewrite D.
      unfold source_stop in E. destruct_session s. revert E. js.
      destruct (nd !! id) as [n|] eqn:F; js;
        [destruct (node_startedAt n) eqn:G; js|]; intros E; inversion E; subst s1.
      cbn. unfold stopOne. now rewrite F, G.
    + exists []. unfold source_stop in E. destruct_session s. revert E. js.
      destruct (nd !! id) as [n|] eqn:F; js;
        [destruct (node_startedAt n) eqn:G; js|]; intros E; inversion E; subst s1;
        reflexivity.
Qed.

Lemma same_devices_refl b : same_devices b b.
Proof. now repeat split. Qed.

Lemma same_devices_trans b1 b2 b3 :
  same_devices b1 b2 -> same_devices b2 b3 -> same_devices b1 b3.
Proof.
  intros (A1 & A2 & A3 & A4 & A5 & A6 & A7) (B1 & B2 & B3 & B4 & B5 & B6 & B7).
  repeat split; congruence.
Qed.

Lemma source_stop_devices id s :
  same_devices (browser (snd (source_stop id s))) (browser s).
Proof.
  unfold source_stop. destruct_session s. js.
  destruct (nd !! id) as [n|]; js; [destruct (node_startedAt n); js|];
    now repeat split.
Qed.

Lemma forEach_stop_devices srcs s :
  same_devices (browser (snd (forEach srcs source_stop s))) (browser s).
Proof.
  revert s. induction srcs as [|id srcs IH]; intros s; [apply same_devices_refl|].
  cbn [forEach]. unfold bind at 1.
  pose proof (source_stop_devices id s) as S.
  destruct (source_stop id s) as [[[]|e] s1]; cbn [snd] in *; [|exact S].
  eapply same_devices_trans; [apply IH|exact S].
Qed.

(** Lines 213-218 on any session. *)
Lemma handleInterrupted_frame m x :
  let s' := snd (handleInterrupted m x) in
  react s' = react x /\
  (liveSet s' = [] \/ liveSet s' = liveSet x) /\
  (exists done, nodes (browser s') = stopAll (nodes (browser x)) done) /\
  same_devices (browser s') (browser x) /\
  set_nextStartTimeRef 0 (set_sourcesRef [] (refs s'))
    = set_nextStartTimeRef 0 (set_sourcesRef [] (refs x)).
Proof.
  cbn zeta. unfold handleInterrupted. destruct (msg_interrupted m).
  - pose proof (forEach_stop_nodes (sourcesRef (refs x)) x) as [done D].
    pose proof (forEach_stop_frame (sourcesRef (refs x)) x) as F. cbn zeta in F.
    pose proof (forEach_stop_devices (sourcesRef (refs x)) x) as B.
    unfold bind, gets, sources_clear, modify. cbn.
    destruct (forEach (sourcesRef (refs x)) source_stop x) as [[[]|e] x1]; cbn in *.
    + destruct F as (R1 & R2 & _).
      destruct_session x1. cbn in *.
      split; [exact R1|]. split; [now left|]. split; [now exists done|].
      split; [exact B|]. now rewrite <- R2.
    + destruct F as (R1 & R2 & _).
      repeat split; auto; try apply B; try (now rewrite R2).
      * right. unfold liveSet. now rewrite R2.
      * exists done. exact D.
  - cbn. repeat split; auto. exists []. reflexivity.
Qed.

Lemma message_frame t m s :
  let s' := exec (onmessage t m) s in
  react s' = react s /\
  (liveSet s' = [] \/ liveSet s' = liveSet s \/
   exists id, liveSet s' = Set_add id (liveSet s)) /\
  (exists extra done,
      nodes (browser s') = stopAll (nodes (browser s) ++ extra) done) /\
  same_devices (browser s') (browser s) /\
  devices (refs s') = devices (refs s).
Proof.
  cbn zeta. unfold exec.
  destruct (onmessage_cases t m s) as (x & E & C). rewrite E.
  destruct (handleInterrupted_frame m x) as (R & L & (done & N) & B & D).
  assert (X : react x = react s /\
              (liveSet x = liveSet s \/ exists id, liveSet x = Set_add id (liveSet s)) /\
              (exists extra, nodes (browser x) = nodes (browser s) ++ extra) /\
              same_devices (browser x) (browser s) /\
              devices (refs x) = devices (refs s)).
  { destruct C as [->|[->|[buf [->| ->]]]]; destruct_session s; cbn;
      (split; [reflexivity|]); (split; [eauto|]);
      (split; [first [now eexists | exists []; now rewrite app_nil_r]|]);
      split; try reflexivity; now repeat split. }
  destruct X as (R' & L' & (extra & N') & B' & D').
  split; [congruence|]. split.
  { destruct L as [L|L]; [now left|right]. rewrite L. exact L'. }
  split; [exists extra, done; now rewrite N, N'|].
  split; [eapply same_devices_trans; eauto|].
  unfold devices in *. congruence.
Qed.

End Cases.

(* ===================================================================== *)
(** ** The status *)

Section Status.
Context `{AudioUtils}.


End Status.

(* ===================================================================== *)
(** ** What an event can do to the handles and to the channel *)

Section Frame.
Context `{AudioUtils}.

Lemma onerror_spec err s :
  onerror err s =
  (Normal tt,
   afterStop (on_react (set_errorMsg (Some "Connection error. Please try again."%string)) s)).
Proof.
  unfold onerror, setErrorMsg, bind, modify. now rewrite stopSession_spec.
Qed.

Lemma onconnectfailed_spec err s :
  onconnectfailed err s =
  (Normal tt,
   afterStop (on_react (fun r =>
     set_status error
       (set_errorMsg (Some (message_or err "Failed to connect to Gemini.")) r)) s)).
Proof.
  unfold onconnectfailed, setErrorMsg, setStatus, bind, modify.
  rewrite stopSession_spec. now destruct_session s.
Qed.

Lemma afterStart_frame env s :
  liveSet (afterStart env s) = [] /\
  nodes (browser (afterStart env s)) = stopAll (nodes (browser s)) (liveSet s) /\
  outbox (browser (afterStart env s)) = outbox (browser s).
Proof.
  destruct_session s. destruct env as [key ictx ires octx ores gain media sess].
  unfold afterStart, failedWith, afterStop. cbn.
  destruct key; cbn; [|now repeat split].
  destruct ires as [[]|e1]; cbn; [|now repeat split].
  destruct ores as [[]|e2]; cbn; [|now repeat split].
  now destruct media.
Qed.

Ltac quiet :=
  split; [auto|]; split; [exists [], []; now rewrite app_nil_r|now left].

Lemma step_frame ev s :
  let s' := step ev s in
  (liveSet s' = [] \/ liveSet s' = liveSet s \/
   (exists id, liveSet s' = Set_add id (liveSet s)) \/
   (exists id, liveSet s' = Set_delete id (liveSet s))) /\
  (exists extra done,
      nodes (browser s') = stopAll (nodes (browser s) ++ extra) done) /\
  (outbox (browser s') = outbox (browser s) \/
   (is_Some (sessionPromiseRef (refs s)) /\
    exists m, outbox (browser s') = outbox (browser s) ++ [m])).
Proof.
  assert (Same : forall x : Session,
             liveSet x = liveSet s -> nodes (browser x) = nodes (browser s) ->
             outbox (browser x) = outbox (browser s) ->
             (liveSet x = [] \/ liveSet x = liveSet s \/
              (exists id, liveSet x = Set_add id (liveSet s)) \/
              (exists id, liveSet x = Set_delete id (liveSet s))) /\
             (exists extra done,
                 nodes (browser x) = stopAll (nodes (browser s) ++ extra) done) /\
             (outbox (browser x) = outbox (browser s) \/
              (is_Some (sessionPromiseRef (refs s)) /\
               exists m, outbox (browser x) = outbox (browser s) ++ [m]))).
  { intros x L N O. split; [auto|]. split; [|auto].
    exists [], []. now rewrite app_nil_r. }
  assert (Stop : forall x : Session,
             liveSet x = [] ->
             nodes (browser x) = stopAll (nodes (browser s)) (liveSet s) ->
             outbox (browser x) = outbox (browser s) ->
             (liveSet x = [] \/ liveSet x = liveSet s \/
              (exists id, liveSet x = Set_add id (liveSet s)) \/
              (exists id, liveSet x = Set_delete id (liveSet s))) /\
             (exists extra done,
                 nodes (browser x) = stopAll (nodes (browser s) ++ extra) done) /\
             (outbox (browser x) = outbox (browser s) \/
              (is_Some (sessionPromiseRef (refs s)) /\
               exists m, outbox (browser x) = outbox (browser s) ++ [m]))).
  { intros x L N O. split; [auto|]. split; [|auto].
    exists [], (liveSet s). now rewrite app_nil_r. }
  cbn zeta. unfold step. destruct ev; cbn [handler].
  - unfold exec. rewrite startSession_spec. cbn [snd].
    destruct (afterStart_frame env s) as (L & N & O). now apply Stop.
  - unfold exec. rewrite stopSession_spec. cbn [snd].
    apply Stop; now destruct_session s.
  - apply Same; unfold exec; destruct_session s; unfold onopen, startVideoStream,
      setInterval, clearInterval, setStatus; js;
      (destruct cb; js; [|reflexivity]);
      (destruct ic; js; [|reflexivity]); (destruct sr; js; [|reflexivity]);
      destruct vi; js; reflexivity.
  - unfold exec, bind, gets.
    pose proof (message_frame currentTime message s) as (_ & L & N & B & _).
    unfold exec in *.
    destruct (callbacks (browser s)); [|now apply Same].
    split; [|split; [exact N|left; apply B]].
    destruct L as [L|[L|L]]; auto.
  - unfold exec, bind, gets, onclose.
    destruct (callbacks (browser s)); [|now apply Same].
    rewrite stopSession_spec. apply Stop; now destruct_session s.
  - unfold exec, bind, gets.
    destruct (callbacks (browser s)); [|now apply Same].
    rewrite onerror_spec. apply Stop; now destruct_session s.
  - unfold exec, bind, gets.
    destruct (callbacks (browser s)); [|now apply Same].
    rewrite onconnectfailed_spec. apply Stop; now destruct_session s.
  - unfold exec. destruct_session s. unfold onaudioprocess, setVolumeLevel, send. js.
    destruct pr as [[? [[] ?]]|]; js; try quiet.
    destruct sp; js; [|quiet].
    split; [auto|]. split; [exists [], []; now rewrite app_nil_r|].
    right. cbn. eauto.
  - unfold exec. destruct_session s. unfold videoTick, send. js.
    destruct (lookupTimer id tm) as [[? []]|]; js; try quiet.
    destruct frame; js; [|quiet].
    destruct sp; js; [|quiet].
    split; [auto|]. split; [exists [], []; now rewrite app_nil_r|].
    right. cbn. eauto.
  - destruct_session s. cbn. split; [eauto 6|].
    split; [exists [], []; now rewrite app_nil_r|now left].
  - apply Same; now destruct_session s.
  - apply Same; now destruct_session s.
  - apply Same; now destruct_session s.
Qed.

End Frame.

(* ===================================================================== *)
(** ** Handles and the channel over the event loop *)

Section Handles.
Context `{AudioUtils}.

(** X7.  No event removes a source node or rewrites its history: a node
    keeps its index, its buffer and the start time it was scheduled at
    (or its never having been started), and a node that was stopped stays
    stopped. *)
Theorem scheduled_handles_are_permanent
    (ev : Event) (s : Session) (id : nat) (n : SourceNode) :
  nodes (browser s) !! id = Some n ->
  exists n', nodes (browser (step ev s)) !! id = Some n' /\
             node_buffer n' = node_buffer n /\
             node_startedAt n' = node_startedAt n /\
             (node_stopped n = true -> node_stopped n' = true).
Proof.
  intros E.
  destruct (step_frame ev s) as (_ & (extra & done & N) & _). rewrite N.
  assert (E' : (nodes (browser s) ++ extra) !! id = Some n).
  { rewrite lookup_app_l; [exact E|]. eapply lookup_lt_Some; eauto. }
  destruct (stopAll_lookup _ done _ _ E') as (n' & L & B & S).
  exists n'. repeat split; auto.
  intros St.
  pose proof (stopped_stopAll_mono (nodes (browser s) ++ extra) done id) as M.
  unfold stopped in M. rewrite E', L in M. now apply M.
Qed.

(** X8.  The outbound channel is append-only and is fed one element at a
    time: an event leaves what was submitted in place and adds at most
    one media object, and adds none when no session promise is held. *)
Theorem channel_append_only (ev : Event) (s : Session) :
  (outbox (browser (step ev s)) = outbox (browser s) \/
   exists m, outbox (browser (step ev s)) = outbox (browser s) ++ [m]) /\
  (sessionPromiseRef (refs s) = None ->
   outbox (browser (step ev s)) = outbox (browser s)).
Proof.
  destruct (step_frame ev s) as (_ & _ & [O|[[p P] [m O]]]).
  - auto.
  - split; [eauto|]. intros N. congruence.
Qed.

End Handles.

(* ===================================================================== *)
(** ** References and what they refer to *)

Lemma filter_timer_self id (sc : Scope) :
  filter (fun t : positive * Scope => t.1 <> id) [(id, sc)] = [].
Proof.
  rewrite filter_cons. cbn. destruct (decide (id <> id)); [contradiction|reflexivity].
Qed.

Lemma devices_eq r r' :
  devices r = devices r' ->
  inputAudioContextRef r = inputAudioContextRef r' /\
  outputAudioContextRef r = outputAudioContextRef r' /\
  streamRef r = streamRef r' /\
  processorRef r = processorRef r' /\
  videoIntervalRef r = videoIntervalRef r' /\
  gainNodeRef r = gainNodeRef r' /\
  sessionPromiseRef r = sessionPromiseRef r'.
Proof.
  destruct r, r'. unfold devices. cbn. intros E. inversion E. now repeat split.
Qed.

Section Wiring.
Context `{AudioUtils}.

Ltac consistent :=
  split; intros ?X; try (now destruct X); repeat split; eauto.

Lemma wired_step ev s :
  timers_tracked s /\ capture_consistent s ->
  timers_tracked (step ev s) /\ capture_consistent (step ev s).
Proof.
  intros [T R].
  assert (Unwired : forall x : Session,
             timers_tracked x -> timers_tracked (afterStop x) /\ capture_consistent (afterStop x)).
  { intros x Tx. destruct_session x. unfold timers_tracked, capture_consistent in *.
    cbn in *. split.
    - destruct vi as [id|]; [|exact Tx]. destruct Tx as [sc ->].
      apply filter_timer_self.
    - split; intros [? ?]; discriminate. }
  assert (Kept : forall x : Session,
             devices (refs x) = devices (refs s) ->
             timers (browser x) = timers (browser s) ->
             timers_tracked x /\ capture_consistent x).
  { intros x D Tm. apply devices_eq in D as (D1 & D2 & D3 & D4 & D5 & D6 & D7).
    unfold timers_tracked, capture_consistent in *. cbn zeta in *.
    rewrite D1, D3, D4, D5, Tm. auto. }
  unfold step. destruct ev; cbn [handler].
  - unfold exec. rewrite startSession_spec. cbn [snd].
    destruct (Unwired s T) as [T' R'].
    destruct_session s. destruct env as [key ictx ires octx ores gain media sess].
    unfold afterStart, failedWith, afterStop, timers_tracked, capture_consistent in *.
    cbn in *.
    destruct key; cbn; [|split; [exact T'|consistent]].
    destruct ires as [[]|e1]; cbn; [|split; [exact T'|consistent]].
    destruct ores as [[]|e2]; cbn; [|split; [exact T'|consistent]].
    destruct media as [stream|e3]; cbn; (split; [exact T'|consistent]).
  - unfold exec. rewrite stopSession_spec. now apply Unwired.
  - unfold exec. destruct_session s. unfold onopen, startVideoStream,
      setInterval, clearInterval, setStatus, timers_tracked, capture_consistent in *.
    cbn in T, R. js.
    destruct cb; js; [|now split].
    destruct ic; js; [|now split]. destruct sr; js; [|now split].
    destruct vi as [id|]; js.
    + destruct T as [sc ->]. rewrite filter_timer_self. cbn.
      split; [eauto|]. consistent.
    + rewrite T. cbn. split; [eauto|]. consistent.
  - unfold exec, bind, gets.
    pose proof (message_frame currentTime message s) as (_ & _ & _ & B & D).
    unfold exec in *.
    destruct (callbacks (browser s)); [|now split].
    apply Kept; [exact D|apply B].
  - unfold exec, bind, gets, onclose.
    destruct (callbacks (browser s)); [|now split].
    rewrite stopSession_spec. now apply Unwired.
  - unfold exec, bind, gets.
    destruct (callbacks (browser s)); [|now split].
    rewrite onerror_spec. apply Unwired. now destruct_session s.
  - unfold exec, bind, gets.
    destruct (callbacks (browser s)); [|now split].
    rewrite onconnectfailed_spec. apply Unwired. now destruct_session s.
  - apply Kept; unfold exec; destruct_session s;
      unfold onaudioprocess, setVolumeLevel, send; js;
      (destruct pr as [[? [[] ?]]|]; js; try reflexivity);
      destruct sp; js; reflexivity.
  - apply Kept; unfold exec; destruct_session s; unfold videoTick, send; js;
      (destruct (lookupTimer id tm) as [[? []]|]; js; try reflexivity);
      (destruct frame; js; [|reflexivity]);
      destruct sp; js; reflexivity.
  - apply Kept; now destruct_session s.
  - apply Kept; now destruct_session s.
  - apply Kept; now destruct_session s.
  - apply Kept; now destruct_session s.
Qed.

Lemma wired_run evs s :
  timers_tracked s /\ capture_consistent s ->
  timers_tracked (run evs s) /\ capture_consistent (run evs s).
Proof.
  revert s. induction evs as [|ev evs IH]; intros s W; [exact W|].
  cbn. apply IH. now apply wired_step.
Qed.

Lemma wired_initial : timers_tracked initial /\ capture_consistent initial.
Proof.
  split; [reflexivity|]. split; intros [? ?]; discriminate.
Qed.

(** X9.  The component never leaks a video interval: in every session the
    event loop reaches, the interval in [videoIntervalRef] is the only one
    running, and none runs when the reference is empty. *)
Theorem reachable_single_interval (evs : list Event) :
  timers_tracked (run evs initial).
Proof. apply (wired_run evs initial wired_initial). Qed.

End Wiring.

(* ===================================================================== *)
(** ** After the teardown *)

Lemma schedule_snoc_unstarted ns buf :
  schedule (ns ++ [{| node_buffer := buf; node_startedAt := None;
                      node_stopped := false |}]) = schedule ns.
Proof. unfold schedule. rewrite omap_app. cbn. apply app_nil_r. Qed.

Section AfterTeardown.
Context `{AudioUtils}.

Lemma handleInterrupted_idle m x :
  liveSet x = [] ->
  handleInterrupted m x =
  (Normal tt, if msg_interrupted m then on_refs (set_nextStartTimeRef 0) x else x).
Proof.
  intros L. unfold handleInterrupted. destruct (msg_interrupted m); [|reflexivity].
  destruct_session x. cbn in L. subst. reflexivity.
Qed.

(** X12.  A chunk whose decoding settles only after the teardown is never
    played: the continuation of its handler does not raise, starts no
    node, leaves the live set empty and submits nothing. *)
Theorem chunk_settling_after_teardown_is_dropped (p : Pending) (s : Session) :
  let t := exec stopSession s in
  let t' := exec (onmessage_resume p) t in
  returns (onmessage_resume p) t /\
  liveSet t' = [] /\
  schedule (nodes (browser t')) = schedule (nodes (browser t)) /\
  same_devices (browser t') (browser t) /\
  react t' = react t.
Proof.
  cbn zeta. unfold returns, exec. rewrite stopSession_spec. cbn [snd].
  set (t := afterStop s).
  assert (G : gainNodeRef (refs t) = None) by (unfold t; now destruct_session s).
  assert (L : liveSet t = []) by (unfold t; now destruct_session s).
  unfold onmessage_resume, bind, try_catch, ret.
  destruct (p_decoded p) as [buf|e] eqn:D.
  - destruct (playChunk_unplayable p buf t D) as [e E]; [now left|].
    rewrite E.
    rewrite handleInterrupted_idle by (destruct_session t; exact L).
    cbn [fst snd]. split; [now exists tt|].
    destruct_session t. cbn in L. subst.
    destruct (msg_interrupted (p_message p)); cbn;
      rewrite schedule_snoc_unstarted; now repeat split.
  - rewrite (playChunk_rejected p e t D).
    rewrite handleInterrupted_idle by exact L.
    cbn [fst snd]. split; [now exists tt|].
    destruct_session t. cbn in L. subst.
    destruct (msg_interrupted (p_message p)); cbn; now repeat split.
Qed.

(** X13.  The teardown does not close the channel, so its open callback
    can still arrive: it then marks the session [connected] although
    nothing is wired - no processor, no interval, no references - and
    capture ticks in that session send nothing. *)
Theorem open_after_teardown_connects_nothing
    (sc : Scope) (processorId : nat) (s : Session) :
  callbacks (browser s) = Some sc ->
  let t := exec stopSession s in
  let t' := step (EvOpen processorId) t in
  status (react t') = connected /\
  refs t' = refs t /\ browser t' = browser t /\
  forall w, step (EvAudioProcess w) t' = t'.
Proof.
  intros C. cbn zeta. unfold exec. rewrite stopSession_spec. cbn [snd].
  destruct_session s. cbn in C. subst cb.
  repeat split.
Qed.

(** X14.  When a handle ends, [onended] takes exactly that handle out of
    the live set: every other handle stays, the nodes, the cursor and
    everything else are untouched, and a second call changes nothing (so
    the ended event of a handle that an interruption already removed is
    harmless). *)
Theorem onended_removes_one_handle (source : nat) (s : Session) :
  let s' := exec (onended source) s in
  (source ∉ liveSet s') /\
  (forall other, other <> source -> (other ∈ liveSet s' <-> other ∈ liveSet s)) /\
  browser s' = browser s /\ react s' = react s /\
  devices (refs s') = devices (refs s) /\ cursor s' = cursor s /\
  exec (onended source) s' = s'.
Proof.
  cbn zeta. destruct_session s. unfold exec, onended, sources_delete, liveSet.
  js. unfold Set_delete.
  split; [|split; [|repeat split]].
  - intros I. apply list_elem_of_filter in I as [N _]. contradiction.
  - intros other N. rewrite list_elem_of_filter. tauto.
  - f_equal. f_equal. apply list_filter_filter_l. auto.
Qed.

End AfterTeardown.

(* ===================================================================== *)
(** ** The volume meter *)

Lemma Math_min_le_r a b : JsMath.min a b <= b.
Proof.
  unfold JsMath.min. destruct (Qle_bool a b) eqn:E.
  - now apply Qle_bool_iff.
  - apply Qle_refl.
Qed.

Lemma Math_min_nonneg a b : 0 <= a -> 0 <= b -> 0 <= JsMath.min a b.
Proof. intros A B. unfold JsMath.min. now destruct (Qle_bool a b). Qed.

Lemma Math_min_small a b : a <= b -> JsMath.min a b = a.
Proof. intros L. unfold JsMath.min. apply Qle_bool_iff in L. now rewrite L. Qed.

Lemma Math_min_large a b : b < a -> JsMath.min a b = b.
Proof.
  intros L. unfold JsMath.min. destruct (Qle_bool a b) eqn:E; [|reflexivity].
  apply Qle_bool_iff in E. apply Qlt_not_le in L. contradiction.
Qed.

Lemma fold_squares_silent w acc :
  Forall (fun x => x == 0) w ->
  fold_left (fun sum x => sum + x * x) w acc == acc.
Proof.
  revert acc. induction w as [|x w IH]; intros acc F; [reflexivity|].
  inversion F as [|? ? X F']; subst. cbn. rewrite (IH _ F'), X. ring.
Qed.

Lemma fold_squares_full w acc :
  Forall (fun x => x * x == 1) w ->
  fold_left (fun sum x => sum + x * x) w acc
  == acc + inject_Z (Z.of_nat (length w)).
Proof.
  revert acc. induction w as [|x w IH]; intros acc F.
  - cbn. ring.
  - inversion F as [|? ? X F']; subst. cbn [fold_left length].
    rewrite (IH _ F'), X, Nat2Z.inj_succ. unfold Z.succ. rewrite inject_Z_plus.
    ring.
Qed.

Lemma length_positive {A} (w : list A) : w <> [] -> 0 < inject_Z (Z.of_nat (length w)).
Proof.
  destruct w as [|x w]; [contradiction|]. intros _.
  cbn [length]. rewrite Nat2Z.inj_succ. unfold Qlt. cbn. lia.
Qed.

Section Meter.
Context `{AudioUtils}.

(** X15.  With a square root that is non-negative and exact at 0 and 1,
    an unmuted capture tick on a non-empty window publishes a volume
    between 0 and 1: exactly 0 for a silent window and exactly 1, the
    clamp, for a window at full scale. *)
Theorem published_volume_bounded (sc : Scope) (w : SampleWindow) (s : Session) :
  sqrt_sound ->
  w <> [] ->
  scope_isMuted sc = false ->
  let v := volumeLevel (react (exec (onaudioprocess sc w) s)) in
  0 <= v /\ v <= 1 /\
  (Forall (fun x => x == 0) w -> v == 0) /\
  (Forall (fun x => x * x == 1) w -> v == 1).
Proof.
  intros (Nonneg & Zero & One) NE M. cbn zeta.
  assert (V : volumeLevel (react (exec (onaudioprocess sc w) s)) = volumeOf w).
  { unfold exec, onaudioprocess, setVolumeLevel, send. rewrite M.
    destruct_session s. js. destruct sp; reflexivity. }
  rewrite V. unfold volumeOf.
  pose proof (length_positive w NE) as P.
  set (n := inject_Z (Z.of_nat (length w))) in *.
  split; [|split; [|split]].
  - apply Math_min_nonneg; [|discriminate].
    pose proof (Nonneg (sumSquares w / n)). lra.
  - apply Math_min_le_r.
  - intros F. pose proof (fold_squares_silent w 0 F) as S.
    fold (sumSquares w) in S.
    assert (Q0 : sumSquares w / n == 0).
    { rewrite S. unfold Qdiv. ring. }
    pose proof (Zero _ Q0) as R.
    rewrite Math_min_small; [rewrite R; ring|]. rewrite R. discriminate.
  - intros F. pose proof (fold_squares_full w 0 F) as S.
    fold (sumSquares w) in S. fold n in S.
    assert (Q1 : sumSquares w / n == 1).
    { rewrite S. field. intros N0. rewrite N0 in P. discriminate. }
    pose proof (One _ Q1) as R.
    rewrite Math_min_large; [reflexivity|]. rewrite R. reflexivity.
Qed.

End Meter.

(* ===================================================================== *)
(** ** The rendered view *)

(** X16.  What the component draws follows its status alone: the spinner
    shows exactly while connecting and the LIVE indicator exactly while
    connected, so never both; the video is at full opacity exactly when no
    placeholder covers it; the main button offers Start when disconnected
    or in error and otherwise disconnects ("..." while connecting, "End"
    when connected); both toggles are enabled exactly when connected; the
    volume ring shows exactly when connected and not muted; the start
    overlay shows exactly when disconnected and the error overlay exactly
    in [error]. *)
Theorem render_follows_status (s : Session) :
  let v := render s in
  let st := status (react s) in
  (placeholder (view_feed v) = Some Spinner <-> st = connecting) /\
  (liveIndicator (view_feed v) = true <-> st = connected) /\
  (videoOpaque (view_feed v) = true <-> placeholder (view_feed v) = None) /\
  (mainButton (view_panel v) = ConnectButton <-> st = disconnected \/ st = error) /\
  (mainButton (view_panel v) = DisconnectButton "..." <-> st = connecting) /\
  (mainButton (view_panel v) = DisconnectButton "End" <-> st = connected) /\
  (muteDisabled (view_panel v) = false <-> st = connected) /\
  videoDisabled (view_panel v) = muteDisabled (view_panel v) /\
  (is_Some (ring (view_panel v)) <-> st = connected /\ isMuted (react s) = false) /\
  (view_startOverlay v = true <-> st = disconnected) /\
  (is_Some (view_errorOverlay v) <-> st = error).
Proof.
  cbn zeta. destruct_session s. unfold render, VideoFeed, ControlPanel. cbn.
  destruct st, mu, ve; cbn; unfold is_Some; repeat apply conj;
    try reflexivity; intros X;
    solve [discriminate | reflexivity | eauto
          | destruct X as [X|X]; discriminate
          | destruct X as [? X]; discriminate].
Qed.

(* ===================================================================== *)
(** ** The cursor and the queue *)




Section Queue.
Context `{AudioUtils}.

Lemma handleInterrupted_joint m x :
  let s' := snd (handleInterrupted m x) in
  (liveSet s' = [] /\ cursor s' = 0) \/
  (liveSet s' = liveSet x /\ cursor s' = cursor x).
Proof.
  cbn zeta. unfold handleInterrupted. destruct (msg_interrupted m); [|now right].
  pose proof (forEach_stop_frame (sourcesRef (refs x)) x) as F. cbn zeta in F.
  unfold bind, gets, sources_clear, modify. cbn.
  destruct (forEach (sourcesRef (refs x)) source_stop x) as [[[]|e] x1]; cbn in *.
  - left. now destruct_session x1.
  - right. destruct F as (_ & R & _). unfold liveSet, cursor. now rewrite R.
Qed.




End Queue.

(* ===================================================================== *)
(** ** Decodes that overlap *)

Section Overlap.
Context `{AudioUtils}.

Lemma resume_ok p buf x :
  p_decoded p = Normal buf ->
  msg_interrupted (p_message p) = false ->
  is_Some (gainNodeRef (refs x)) ->
  0 <= cursor x ->
  exec (onmessage_resume p) x = enqueued buf x.
Proof.
  intros D I G C. unfold exec, onmessage_resume. unfold bind at 1, try_catch.
  rewrite (playChunk_ok p buf x D G C).
  now rewrite handleInterrupted_false by exact I.
Qed.

Lemma gain_enqueued buf x :
  gainNodeRef (refs (enqueued buf x)) = gainNodeRef (refs x).
Proof. now destruct_session x. Qed.

Lemma gain_synced now x :
  gainNodeRef (refs (synced now x)) = gainNodeRef (refs x).
Proof. now destruct_session x. Qed.

Lemma cursor_synced now x : cursor (synced now x) = JsMath.max (cursor x) now.
Proof. now destruct_session x. Qed.

Lemma cursor_enqueued_alone buf x :
  cursor (enqueued buf x) = cursor x + ab_duration buf.
Proof. now destruct_session x. Qed.

Lemma nodes_enqueued_alone buf x :
  nodes (browser (enqueued buf x)) =
  nodes (browser x) ++ [{| node_buffer := buf; node_startedAt := Some (cursor x);
                           node_stopped := false |}].
Proof. now destruct_session x. Qed.

Lemma nodes_synced now x : nodes (browser (synced now x)) = nodes (browser x).
Proof. now destruct_session x. Qed.

Lemma canPlay_synced now x : canPlay (synced now x) = canPlay x.
Proof. now destruct_session x. Qed.

(** X19.  Two audio messages whose decodes are both pending when the
    first settles are still queued back to back, after the later of the
    two clock readings - but in the order their decodes settle, not the
    order the messages arrived: if the second message's decode settles
    first, its chunk plays first. *)
Theorem overlapping_decodes_queue_in_settle_order
    (l : Loop) (ctx : nat) (tA tB : Q) (mA mB : LiveServerMessage)
    (bA bB : AudioBuffer) :
  canPlay (session l) = Some ctx ->
  chunkOf ctx mA = Some (Normal bA) -> msg_interrupted mA = false ->
  chunkOf ctx mB = Some (Normal bB) -> msg_interrupted mB = false ->
  0 <= tA ->
  let n := length (awaiting l) in
  let start := JsMath.max (JsMath.max (cursor (session l)) tA) tB in
  let node buf t := {| node_buffer := buf; node_startedAt := Some t;
                       node_stopped := false |} in
  let inOrder := turns [Deliver tA mA; Deliver tB mB; Settle n; Settle n] l in
  let swapped := turns [Deliver tA mA; Deliver tB mB; Settle (S n); Settle n] l in
  nodes (browser (session inOrder)) =
    nodes (browser (session l)) ++ [node bA start; node bB (start + ab_duration bA)] /\
  nodes (browser (session swapped)) =
    nodes (browser (session l)) ++ [node bB start; node bA (start + ab_duration bB)] /\
  awaiting inOrder = awaiting l /\ awaiting swapped = awaiting l.
Proof.
  intros P DA IA DB IB N. cbn zeta. destruct l as [s aw]. cbn [session awaiting] in *.
  destruct (begin_accepted tA mA s ctx bA P DA) as (pA & DpA & MpA & BA).
  assert (P1 : canPlay (synced tA s) = Some ctx) by now rewrite canPlay_synced.
  destruct (begin_accepted tB mB (synced tA s) ctx bB P1 DB) as (pB & DpB & MpB & BB).
  set (s2 := synced tB (synced tA s)) in *.
  assert (G : is_Some (gainNodeRef (refs s2))).
  { unfold s2. rewrite !gain_synced. now apply canPlay_Some in P as [_ G]. }
  assert (K : cursor s2 = JsMath.max (JsMath.max (cursor s) tA) tB).
  { unfold s2. now rewrite !cursor_synced. }
  assert (C : 0 <= cursor s2).
  { rewrite K. pose proof (JsMathFacts.max_ge_r (cursor s) tA).
    pose proof (JsMathFacts.max_ge_l (JsMath.max (cursor s) tA) tB).
    lra. }
  assert (N2 : nodes (browser s2) = nodes (browser s)).
  { unfold s2. now rewrite !nodes_synced. }
  assert (LA : ((aw ++ [pA]) ++ [pB]) !! length aw = Some pA).
  { rewrite lookup_app_l by (rewrite length_app; cbn; lia).
    now apply list_lookup_middle. }
  assert (LB : ((aw ++ [pA]) ++ [pB]) !! S (length aw) = Some pB).
  { apply list_lookup_middle. rewrite length_app. cbn. lia. }
  assert (DelA : delete (length aw) ((aw ++ [pA]) ++ [pB]) = aw ++ [pB]).
  { rewrite <- app_assoc. apply (delete_middle aw [pB] pA). }
  assert (DelB : delete (S (length aw)) ((aw ++ [pA]) ++ [pB]) = aw ++ [pA]).
  { replace (S (length aw)) with (length (aw ++ [pA]))
      by (rewrite length_app; cbn; lia).
    apply delete_snoc. }
  pose proof (ab_duration_nonneg bA) as dA.
  pose proof (ab_duration_nonneg bB) as dB.
  cbn [turns fold_left turn session awaiting]. rewrite BA.
  cbn [session awaiting]. rewrite BB. cbn [session awaiting].
  rewrite LA, LB. cbn [session awaiting]. rewrite DelA, DelB.
  rewrite !list_lookup_middle by reflexivity. cbn [session awaiting].
  rewrite !delete_snoc.
  rewrite <- MpA in IA. rewrite <- MpB in IB.
  rewrite (resume_ok pA bA s2 DpA IA G C), (resume_ok pB bB s2 DpB IB G C).
  rewrite (resume_ok pB bB (enqueued bA s2) DpB IB)
    by (first [rewrite gain_enqueued; exact G
              |rewrite cursor_enqueued_alone; lra]).
  rewrite (resume_ok pA bA (enqueued bB s2) DpA IA)
    by (first [rewrite gain_enqueued; exact G
              |rewrite cursor_enqueued_alone; lra]).
  rewrite !nodes_enqueued_alone, !cursor_enqueued_alone, N2, K.
  rewrite <- !app_assoc. repeat split.
Qed.

End Overlap.

(* ===================================================================== *)
(** ** The handlers, [await] by [await] *)




Section Segments.
Context `{AudioUtils}.

Lemma playChunk_cases p s :
  snd (playChunk p s) = s \/
  exists buf, p_decoded p = Normal buf /\
    ((is_Some (gainNodeRef (refs s)) /\ 0 <= cursor s /\
      snd (playChunk p s) = enqueued buf s) \/
     snd (playChunk p s) = abandoned buf s).
Proof.
  destruct (p_decoded p) as [buf|e] eqn:D.
  - right. exists buf. split; [reflexivity|].
    destruct (gainNodeRef (refs s)) as [g|] eqn:G.
    + destruct (Qlt_le_dec (cursor s) 0) as [L|L].
      * destruct (playChunk_unplayable p buf s D) as [e E].
        { right. now apply Qlt_not_le. }
        rewrite E. now right.
      * left. split; [eauto|]. split; [exact L|].
        rewrite (playChunk_ok p buf s D); [reflexivity| |exact L].
        rewrite G. eauto.
    + destruct (playChunk_unplayable p buf s D) as [e E]; [now left|].
      rewrite E. now right.
  - left. now rewrite (playChunk_rejected p e s D).
Qed.

(** A delivery either suspends at the [await], having brought the cursor
    up to the clock, or goes on to lines 213-218. *)
Lemma deliver_cases now m l :
  (exists p, p_message p = m /\
     turn (Deliver now m) l =
       {| session := synced now (session l); awaiting := awaiting l ++ [p] |}) \/
  (exists x, (x = session l \/ x = synced now (session l)) /\
     turn (Deliver now m) l =
       {| session := snd (handleInterrupted m x); awaiting := awaiting l |}).
Proof.
  destruct l as [s aw]. destruct_session s. cbn [turn session awaiting].
  unfold onmessage_begin, synced, cursor. js.
  destruct (truthy (msg_data m)) as [b64|] eqn:T.
  - destruct oc as [ctx|]; [destruct gn as [g|]|]; js.
    + destruct (base64ToBytes b64) as [bytes|e] eqn:B; js.
      * left. eexists {| p_decoded := _; p_message := m |}. split; reflexivity.
      * right. eexists. split; [right; reflexivity|].
        now destruct (handleInterrupted m _) as [[[]|?] ?].
    + right. eexists. split; [left; reflexivity|].
      now destruct (handleInterrupted m _) as [[[]|?] ?].
    + right. eexists. split; [left; reflexivity|].
      now destruct (handleInterrupted m _) as [[[]|?] ?].
  - right. eexists. split; [left; reflexivity|].
    now destruct (handleInterrupted m _) as [[[]|?] ?].
Qed.

(** A continuation plays its chunk, or abandons the node it made, or
    does neither, and goes on to lines 213-218. *)
Lemma settle_cases i l :
  (awaiting l !! i = None /\ turn (Settle i) l = l) \/
  (exists p x, awaiting l !! i = Some p /\
      (x = session l \/
       exists buf, p_decoded p = Normal buf /\
         ((is_Some (gainNodeRef (refs (session l))) /\ 0 <= cursor (session l) /\
           x = enqueued buf (session l)) \/
          x = abandoned buf (session l))) /\
      turn (Settle i) l =
        {| session := snd (handleInterrupted (p_message p) x);
           awaiting := delete i (awaiting l) |}).
Proof.
  cbn [turn]. destruct (awaiting l !! i) as [p|] eqn:E; [right|now left].
  exists p, (snd (playChunk p (session l))). split; [reflexivity|].
  split.
  - destruct (playChunk_cases p (session l)) as [X|(buf & D & [(G & C & X)|X])];
      rewrite X; eauto 8.
  - f_equal. unfold exec, onmessage_resume, bind, try_catch, ret.
    now destruct (playChunk p (session l)) as [[[]|e] x].
Qed.


End Segments.

(* ===================================================================== *)
(** ** Scheduling while decodes are in flight *)



Section Scheduling.
Context `{AudioUtils}.




End Scheduling.

(* ===================================================================== *)
(** ** When the reset runs *)

Lemma gain_interrupted x :
  gainNodeRef (refs (interrupted x)) = gainNodeRef (refs x).
Proof. now destruct_session x. Qed.

Lemma cursor_interrupted x : cursor (interrupted x) = 0.
Proof. now destruct_session x. Qed.

Lemma live_interrupted x : liveSet (interrupted x) = [].
Proof. now destruct_session x. Qed.

Lemma nodes_interrupted x :
  nodes (browser (interrupted x)) = stopAll (nodes (browser x)) (liveSet x).
Proof. now destruct_session x. Qed.

Section LateReset.
Context `{AudioUtils}.

(** C9 (as the code has it).  The reset of lines 215-217 has no
    suspension point in it and leaves nothing of the cursor it found:
    from the session it leaves, the loop goes the same way whatever that
    cursor was, and a chunk whose decoding settles next is started at
    zero.  But the reset is the last thing its message's handler does.
    For an interruption that carries no audio that is at delivery: a
    chunk delivered before it and settled after it starts at zero.  For
    an interruption that carries audio that is when its own chunk has been
    decoded: a chunk that is delivered after the interruption and settles
    before it is started at the cursor from before the reset, and is then
    stopped by the reset. *)
Theorem reset_runs_when_its_message_settles :
  (forall m x c aw ts,
      msg_interrupted m = true ->
      live_started x = true ->
      turns ts {| session := exec (handleInterrupted m)
                               (on_refs (set_nextStartTimeRef c) x);
                  awaiting := aw |}
      = turns ts {| session := exec (handleInterrupted m) x; awaiting := aw |}) /\
  (forall m x p buf,
      msg_interrupted m = true ->
      live_started x = true ->
      is_Some (gainNodeRef (refs x)) ->
      p_decoded p = Normal buf ->
      msg_interrupted (p_message p) = false ->
      let r := exec (handleInterrupted m) x in
      let r' := exec (onmessage_resume p) r in
      cursor r = 0 /\ liveSet r = [] /\
      nodes (browser r') !! length (nodes (browser x))
        = Some {| node_buffer := buf; node_startedAt := Some 0;
                  node_stopped := false |} /\
      cursor r' = 0 + ab_duration buf) /\
  (forall l c now ts,
      live_started (session l) = true ->
      turns (Deliver now interruption :: ts)
            {| session := on_refs (set_nextStartTimeRef c) (session l);
               awaiting := awaiting l |}
      = turns (Deliver now interruption :: ts) l) /\
  (forall l ctx t1 t2 m buf,
      canPlay (session l) = Some ctx ->
      chunkOf ctx m = Some (Normal buf) ->
      msg_interrupted m = false ->
      live_started (session l) = true ->
      let l' := turns [Deliver t1 m; Deliver t2 interruption;
                       Settle (length (awaiting l))] l in
      nodes (browser (session l')) !! length (nodes (browser (session l)))
        = Some {| node_buffer := buf; node_startedAt := Some 0;
                  node_stopped := false |} /\
      cursor (session l') = 0 + ab_duration buf /\
      awaiting l' = awaiting l) /\
  (forall l ctx tI tB mI mB bufI bufB,
      canPlay (session l) = Some ctx ->
      chunkOf ctx mI = Some (Normal bufI) -> msg_interrupted mI = true ->
      chunkOf ctx mB = Some (Normal bufB) -> msg_interrupted mB = false ->
      0 <= tI ->
      live_started (session l) = true ->
      let n := length (awaiting l) in
      let before := JsMath.max (JsMath.max (cursor (session l)) tI) tB in
      let l1 := turns [Deliver tI mI; Deliver tB mB; Settle (S n)] l in
      let l2 := turn (Settle n) l1 in
      nodes (browser (session l1)) =
        nodes (browser (session l)) ++ [{| node_buffer := bufB;
                                           node_startedAt := Some before;
                                           node_stopped := false |}] /\
      (exists nB, nodes (browser (session l2)) !! length (nodes (browser (session l)))
                    = Some nB /\
                  node_buffer nB = bufB /\
                  node_startedAt nB = Some before /\
                  node_stopped nB = true) /\
      liveSet (session l2) = [] /\
      cursor (session l2) = 0 /\
      awaiting l2 = awaiting l).
Proof.
  split; [|split; [|split; [|split]]].
  - intros m x c aw ts I L. unfold exec.
    rewrite !handleInterrupted_true; [|exact I|exact L|exact I|now destruct_session x].
    cbn [snd]. now rewrite interrupted_forgets.
  - intros m x p buf I L G D Ip r r'. subst r' r. unfold exec.
    rewrite (handleInterrupted_true m x I L). cbn [snd].
    fold (exec (onmessage_resume p) (interrupted x)).
    rewrite cursor_interrupted, live_interrupted.
    split; [reflexivity|]. split; [reflexivity|].
    rewrite (resume_ok p buf (interrupted x) D Ip)
      by (first [rewrite gain_interrupted; exact G
                |rewrite cursor_interrupted; apply Qle_refl]).
    rewrite nodes_enqueued_alone, cursor_enqueued_alone, cursor_interrupted.
    split; [|reflexivity].
    rewrite nodes_interrupted.
    rewrite <- (stopAll_length (nodes (browser x)) (liveSet x)).
    now apply list_lookup_middle.
  - intros [s aw] c now ts L. cbn [session awaiting] in *.
    cbn [turns fold_left turn session awaiting].
    rewrite !begin_interruption; [|exact L|now destruct_session s].
    now rewrite interrupted_forgets.
  - intros [s aw] ctx t1 t2 m buf P D I L l'. subst l'.
    cbn [session awaiting] in *.
    destruct (begin_accepted t1 m s ctx buf P D) as (p & Dp & Mp & B).
    cbn [turns fold_left turn session awaiting]. rewrite B.
    cbn [session awaiting].
    rewrite begin_interruption
      by (apply (ext_started _ _ (extends_synced t1 s)); exact L).
    cbn [session awaiting].
    rewrite list_lookup_middle by reflexivity. cbn [session awaiting].
    rewrite delete_snoc.
    set (x := interrupted (synced t1 s)).
    assert (C : cursor x = 0) by (unfold x; apply cursor_interrupted).
    assert (G : is_Some (gainNodeRef (refs x))).
    { apply canPlay_Some in P as [_ G]. unfold x.
      now rewrite gain_interrupted, gain_synced. }
    rewrite <- Mp in I.
    rewrite (resume_ok p buf x Dp I G) by (rewrite C; apply Qle_refl).
    rewrite nodes_enqueued_alone, cursor_enqueued_alone, C.
    split; [|split; reflexivity].
    assert (N : length (nodes (browser x)) = length (nodes (browser s))).
    { unfold x. rewrite nodes_interrupted, stopAll_length. now rewrite nodes_synced. }
    rewrite <- N. now apply list_lookup_middle.
  - intros [s aw] ctx tI tB mI mB bufI bufB P DI II DB IB N L n before l1 l2.
    subst l2 l1 before n. cbn [session awaiting] in *.
    destruct (begin_accepted tI mI s ctx bufI P DI) as (pI & DpI & MpI & BI).
    assert (P1 : canPlay (synced tI s) = Some ctx) by now rewrite canPlay_synced.
    destruct (begin_accepted tB mB (synced tI s) ctx bufB P1 DB)
      as (pB & DpB & MpB & BB).
    set (s2 := synced tB (synced tI s)) in *.
    assert (G : is_Some (gainNodeRef (refs s2))).
    { unfold s2. rewrite !gain_synced. now apply canPlay_Some in P as [_ G]. }
    assert (K : cursor s2 = JsMath.max (JsMath.max (cursor s) tI) tB).
    { unfold s2. now rewrite !cursor_synced. }
    assert (C : 0 <= cursor s2).
    { rewrite K. pose proof (JsMathFacts.max_ge_r (cursor s) tI).
      pose proof (JsMathFacts.max_ge_l (JsMath.max (cursor s) tI) tB).
      lra. }
    assert (N2 : nodes (browser s2) = nodes (browser s)).
    { unfold s2. now rewrite !nodes_synced. }
    assert (L2 : live_started s2 = true).
    { unfold s2. apply (ext_started _ _ (extends_synced tB _)).
      now apply (ext_started _ _ (extends_synced tI _)). }
    assert (LB : ((aw ++ [pI]) ++ [pB]) !! S (length aw) = Some pB).
    { apply list_lookup_middle. rewrite length_app. cbn. lia. }
    assert (DelB : delete (S (length aw)) ((aw ++ [pI]) ++ [pB]) = aw ++ [pI]).
    { replace (S (length aw)) with (length (aw ++ [pI]))
        by (rewrite length_app; cbn; lia).
      apply delete_snoc. }
    pose proof (ab_duration_nonneg bufB) as dB.
    cbn [turns fold_left turn session awaiting]. rewrite BI.
    cbn [session awaiting]. rewrite BB. cbn [session awaiting].
    rewrite LB. cbn [session awaiting]. rewrite DelB.
    rewrite list_lookup_middle by reflexivity. cbn [session awaiting].
    rewrite delete_snoc.
    rewrite <- MpB in IB.
    rewrite (resume_ok pB bufB s2 DpB IB G C).
    set (y := enqueued bufB s2).
    assert (Ny : nodes (browser y) =
                 nodes (browser s) ++ [{| node_buffer := bufB;
                                          node_startedAt := Some (JsMath.max (JsMath.max (cursor s) tI) tB);
                                          node_stopped := false |}]).
    { unfold y. now rewrite nodes_enqueued_alone, N2, K. }
    split; [exact Ny|].
    assert (Ly : live_started y = true)
      by (apply (ext_started _ _ (extends_enqueued bufB s2)); exact L2).
    assert (Gy : is_Some (gainNodeRef (refs y)))
      by (unfold y; rewrite gain_enqueued; exact G).
    assert (Cy : 0 <= cursor y)
      by (unfold y; rewrite cursor_enqueued_alone; lra).
    set (z := enqueued bufI y).
    assert (Lz : live_started z = true)
      by (apply (ext_started _ _ (extends_enqueued bufI y)); exact Ly).
    assert (R : exec (onmessage_resume pI) y = interrupted z).
    { unfold exec, onmessage_resume. unfold bind at 1, try_catch.
      rewrite (playChunk_ok pI bufI y DpI Gy Cy). cbv beta iota.
      rewrite MpI. fold z. now rewrite (handleInterrupted_true mI z II Lz). }
    rewrite R.
    rewrite live_interrupted, cursor_interrupted, nodes_interrupted.
    split; [|now repeat split].
    assert (In : length (nodes (browser s)) ∈ liveSet z).
    { apply (ext_live _ _ (extends_enqueued bufI y)).
      unfold y. rewrite <- N2. destruct_session s2. cbn. apply elem_of_Set_add. }
    pose proof (live_started_elem z _ Lz In) as S.
    pose proof (stopped_stopAll _ (liveSet z) _ In S) as St.
    assert (E : nodes (browser z) !! length (nodes (browser s)) =
                Some {| node_buffer := bufB;
                        node_startedAt := Some (JsMath.max (JsMath.max (cursor s) tI) tB);
                        node_stopped := false |}).
    { unfold z. rewrite nodes_enqueued_alone, Ny.
      rewrite lookup_app_l by (rewrite length_app; cbn; lia).
      now apply list_lookup_middle. }
    destruct (stopAll_lookup _ (liveSet z) _ _ E) as (n' & E' & B & T).
    exists n'. unfold stopped in St. rewrite E' in St. auto.
Qed.

End LateReset.

(* ===================================================================== *)
(** ** Starts in flight *)

Section Worlds.
Context `{AudioUtils}.

Lemma startSession_begin_spec env s :
  startSession_begin env s =
  let t0 := on_react (fun r => set_status connecting (set_errorMsg None r))
                     (afterStop s) in
  if env_apiKey env then
    (Normal (Some {| starting_env := env; starting_scope := scopeOf s;
                     starting_stage := AwaitInputResume |}),
     on_refs (set_inputAudioContextRef (Some (env_inputContext env))) t0)
  else
    (Normal None,
     failedWith {| err_name := "Error";
                   err_message := "API Key is missing. Please check your configuration." |}
                t0).
Proof.
  unfold startSession_begin. unfold bind at 1, gets at 1.
  unfold bind at 1. rewrite stopSession_spec.
  destruct_session s. destruct env as [key ictx ires octx ores gain media sess].
  unfold failedWith, afterStop, startSession_catch, setErrorMsg, setStatus, scopeOf.
  js. destruct key; js; reflexivity.
Qed.

(** What a continuation of [startSession] can touch. *)
Lemma startSession_resume_frame st s :
  let s' := snd (startSession_resume st s) in
  processorRef (refs s') = processorRef (refs s) /\
  videoIntervalRef (refs s') = videoIntervalRef (refs s) /\
  inputAudioContextRef (refs s') = inputAudioContextRef (refs s) /\
  (streamRef (refs s') = streamRef (refs s) \/ is_Some (streamRef (refs s'))) /\
  timers (browser s') = timers (browser s) /\
  nodes (browser s') = nodes (browser s) /\
  liveSet s' = liveSet s /\
  (cursor s' = cursor s \/
   (cursor s' = 0 /\ starting_stage st = AwaitGetUserMedia /\
    exists stream, env_getUserMedia (starting_env st) = Normal stream)).
Proof.
  destruct st as [[key ictx ires octx ores gain media sess] sc stage].
  destruct_session s.
  unfold startSession_resume, startSession_catch, setErrorMsg, setStatus. cbn.
  destruct stage; js.
  - destruct ires as [[]|e]; js; repeat split; auto.
  - destruct ores as [[]|e]; js; [destruct oc; js|]; repeat split; auto.
  - destruct media as [stream|e]; js; repeat split; eauto 7.
Qed.

Lemma move_session mv w :
  session (loop (move mv w)) =
  match mv with
  | Run t => session (turn t (loop w))
  | CallStart env => snd (startSession_begin env (session (loop w)))
  | SettleStart i =>
      match starting w !! i with
      | Some st => snd (startSession_resume st (session (loop w)))
      | None => session (loop w)
      end
  | StrayTick sc inputData => exec (onaudioprocess sc inputData) (session (loop w))
  | StrayFrame sc frame => exec (videoTick sc frame) (session (loop w))
  end.
Proof.
  destruct mv as [t|env|i|sc d|sc f]; cbn [move loop session]; try reflexivity.
  - now destruct (startSession_begin env (session (loop w))) as [[[st|]|e] s'].
  - destruct (starting w !! i) as [st|]; [|reflexivity].
    now destruct (startSession_resume st (session (loop w))) as [[[st'|]|e] s'].
Qed.

(** A property of sessions that every segment preserves holds along
    every sequence of moves. *)
Lemma moves_invariant (I : Session -> Prop) :
  (forall t l, I (session l) -> I (session (turn t l))) ->
  (forall env s, I s -> I (snd (startSession_begin env s))) ->
  (forall st s, I s -> I (snd (startSession_resume st s))) ->
  (forall sc d s, I s -> I (exec (onaudioprocess sc d) s)) ->
  (forall sc f s, I s -> I (exec (videoTick sc f) s)) ->
  forall mvs w, I (session (loop w)) -> I (session (loop (moves mvs w))).
Proof.
  intros T B R S V mvs. induction mvs as [|mv mvs IH]; intros w W; [exact W|].
  cbn [moves fold_left]. apply IH. rewrite move_session.
  destruct mv as [t|env|i|sc d|sc f]; auto.
  destruct (starting w !! i); auto.
Qed.

Lemma settle_last st sts l :
  move (SettleStart (length sts)) {| loop := l; starting := sts ++ [st] |} =
  match startSession_resume st (session l) with
  | (Normal (Some st'), s') =>
      {| loop := {| session := s'; awaiting := awaiting l |};
         starting := sts ++ [st'] |}
  | (_, s') =>
      {| loop := {| session := s'; awaiting := awaiting l |}; starting := sts |}
  end.
Proof.
  cbn [move starting loop]. rewrite list_lookup_middle by reflexivity.
  destruct (startSession_resume st (session l)) as [[[st'|]|e] s'];
    unfold into; cbn [loop awaiting starting];
    now rewrite ?insert_snoc, ?delete_snoc.
Qed.

Lemma settle_none sts l :
  move (SettleStart (length sts)) {| loop := l; starting := sts |} =
  {| loop := l; starting := sts |}.
Proof. cbn [move starting]. now rewrite lookup_ge_None_2 by lia. Qed.

#[local] Arguments move : simpl never.

(** The segments run one after the other with nothing in between are
    [startSession]. *)
Lemma start_alone env w :
  moves [CallStart env; SettleStart (length (starting w));
         SettleStart (length (starting w)); SettleStart (length (starting w))] w
  = {| loop := into w (exec (startSession env) (session (loop w)));
       starting := starting w |}.
Proof.
  destruct w as [[s aw] sts]. cbn [starting loop session].
  unfold exec. rewrite startSession_spec. cbn [snd].
  cbn [moves fold_left]. unfold move at 4. cbn [loop session starting].
  rewrite startSession_begin_spec. cbn zeta.
  destruct_session s. destruct env as [key ictx ires octx ores gain media sess].
  unfold afterStart, failedWith, afterStop, into, scopeOf. cbn.
  destruct key; cbn.
  - rewrite settle_last.
    unfold startSession_resume, startSession_catch, setErrorMsg, setStatus. js.
    destruct ires as [[]|e1]; js.
    + rewrite settle_last.
      unfold startSession_resume, startSession_catch, setErrorMsg, setStatus. js.
      destruct ores as [[]|e2]; js.
      * rewrite settle_last.
        unfold startSession_resume, startSession_catch, setErrorMsg, setStatus. js.
        destruct media as [stream|e3]; js; reflexivity.
      * rewrite settle_none. reflexivity.
    + rewrite !settle_none. reflexivity.
  - rewrite !settle_none. reflexivity.
Qed.

Lemma run_other ev w :
  move (Run (Other ev)) w =
  {| loop := {| session := step ev (session (loop w)); awaiting := awaiting (loop w) |};
     starting := starting w |}.
Proof. reflexivity. Qed.

(** X2.  [startSession] await by await.  Run with nothing in between its
    awaits it never raises and ends as follows: when every acquisition
    succeeds the session is [connecting] with no error message, holds
    exactly the contexts, gain node, stream and session promise the
    browser handed out, has the cursor at zero and an empty live set, and
    has registered its callbacks with the mute and video flags of the
    moment of the call; when one fails the session is in [error] with a
    non-empty message, no session promise and no stream, no callbacks
    were registered and the cursor was not touched.  A teardown during an
    await does not cancel the call.  After a teardown during the wait for
    the capture device, a grant still stores the stream and the session
    promise and registers the callbacks, in a session that is
    [disconnected] and has neither audio context nor gain node.  After a
    teardown during the second await, the call ends in [error], because
    the output context it asks for a gain node is gone. *)
Theorem startSession_await_by_await :
  (forall env w,
      let n := length (starting w) in
      let w' := moves [CallStart env; SettleStart n; SettleStart n; SettleStart n] w in
      let s := session (loop w) in
      let s' := session (loop w') in
      s' = exec (startSession env) s /\
      returns (startSession env) s /\
      starting w' = starting w /\ awaiting (loop w') = awaiting (loop w) /\
      if acquires env then
        status (react s') = connecting /\ errorMsg (react s') = None /\
        inputAudioContextRef (refs s') = Some (env_inputContext env) /\
        outputAudioContextRef (refs s') = Some (env_outputContext env) /\
        gainNodeRef (refs s') = Some (env_gainNode env) /\
        Normal <$> streamRef (refs s') = Some (env_getUserMedia env) /\
        sessionPromiseRef (refs s') = Some (env_session env) /\
        cursor s' = 0 /\ liveSet s' = [] /\
        processorRef (refs s') = None /\ videoIntervalRef (refs s') = None /\
        callbacks (browser s') = Some (scopeOf s)
      else
        status (react s') = error /\
        (exists m, errorMsg (react s') = Some m /\ m <> ""%string) /\
        sessionPromiseRef (refs s') = None /\ streamRef (refs s') = None /\
        callbacks (browser s') = callbacks (browser s) /\
        cursor s' = cursor s) /\
  (forall w i st stream,
      starting w !! i = Some st ->
      starting_stage st = AwaitGetUserMedia ->
      env_getUserMedia (starting_env st) = Normal stream ->
      let w' := moves [Run (Other EvStop); SettleStart i] w in
      let s' := session (loop w') in
      status (react s') = disconnected /\
      streamRef (refs s') = Some stream /\
      sessionPromiseRef (refs s') = Some (env_session (starting_env st)) /\
      callbacks (browser s') = Some (starting_scope st) /\
      inputAudioContextRef (refs s') = None /\
      outputAudioContextRef (refs s') = None /\
      gainNodeRef (refs s') = None /\
      stoppedTracks (browser s') =
        stoppedTracks (browser (exec stopSession (session (loop w)))) /\
      starting w' = delete i (starting w)) /\
  (forall w i st,
      starting w !! i = Some st ->
      starting_stage st = AwaitOutputResume ->
      env_outputResume (starting_env st) = Normal tt ->
      let w' := moves [Run (Other EvStop); SettleStart i] w in
      let s' := session (loop w') in
      status (react s') = error /\
      (exists m, errorMsg (react s') = Some m /\ m <> ""%string) /\
      gainNodeRef (refs s') = None /\
      streamRef (refs s') = None /\
      sessionPromiseRef (refs s') = None /\
      starting w' = delete i (starting w)).
Proof.
  split; [|split].
  - intros env w n w' s s'. subst s' w' n s. rewrite start_alone.
    cbn [loop session starting into awaiting].
    split; [reflexivity|]. unfold returns, exec. rewrite startSession_spec.
    cbn [fst snd]. split; [now exists tt|]. split; [reflexivity|].
    split; [reflexivity|].
    pose proof message_or_nonempty as NE.
    destruct (session (loop w)) as [[st em mu ve vl] [ic oc sr pr cur vi gn sp live]
                                    [cc tr dn tm nt nd cb ob]].
    destruct env as [key ictx ires octx ores gain media sess].
    unfold afterStart, failedWith, afterStop, acquires. cbn.
    destruct key; cbn.
    + destruct ires as [[]|e1]; cbn.
      * destruct ores as [[]|e2]; cbn.
        -- destruct media as [stream|e3]; cbn.
           ++ repeat split.
           ++ repeat split. eauto.
        -- repeat split. eauto.
      * repeat split. eauto.
    + repeat split. eexists. split; [reflexivity|discriminate].
  - intros [[s aw] sts] i [[key ictx ires octx ores gain media sess] sc stage]
      stream L S M. cbn in L, S, M. subst stage media.
    cbn zeta. cbn [moves fold_left]. rewrite run_other.
    cbn [loop session awaiting starting]. unfold step. cbn [handler].
    unfold exec. rewrite !stopSession_spec. cbn [snd].
    unfold move. cbn [starting loop session]. rewrite L.
    destruct_session s.
    unfold startSession_resume, startSession_catch, setErrorMsg, setStatus, afterStop, into.
    js. now repeat split.
  - intros [[s aw] sts] i [[key ictx ires octx ores gain media sess] sc stage]
      L S M. cbn in L, S, M. subst stage ores.
    cbn zeta. cbn [moves fold_left]. rewrite run_other.
    cbn [loop session awaiting starting]. unfold step. cbn [handler].
    unfold exec. rewrite !stopSession_spec. cbn [snd].
    unfold move. cbn [starting loop session]. rewrite L.
    destruct_session s.
    unfold startSession_resume, startSession_catch, setErrorMsg, setStatus, afterStop, into.
    js. repeat split. eexists. split; [reflexivity|discriminate].
Qed.

(* ------------------------------------------------------------------- *)
(** *** What the segments leave in place *)

Lemma tick_frame sc d s :
  let s' := exec (onaudioprocess sc d) s in
  refs s' = refs s /\ nodes (browser s') = nodes (browser s) /\
  timers (browser s') = timers (browser s).
Proof.
  cbn zeta. unfold exec. destruct_session s. destruct sc as [[] ?];
    unfold onaudioprocess, setVolumeLevel, send; js; [now repeat split|].
  destruct sp; js; now repeat split.
Qed.

Lemma frame_frame sc f s :
  let s' := exec (videoTick sc f) s in
  refs s' = refs s /\ nodes (browser s') = nodes (browser s) /\
  timers (browser s') = timers (browser s).
Proof.
  cbn zeta. unfold exec. destruct_session s. destruct sc as [? []];
    unfold videoTick, send; js; [|now repeat split].
  destruct f; js; [|now repeat split].
  destruct sp; js; now repeat split.
Qed.

Lemma begin_frame env s :
  let s' := snd (startSession_begin env s) in
  liveSet s' = [] /\ cursor s' = cursor s /\
  processorRef (refs s') = None /\ videoIntervalRef (refs s') = None /\
  timers (browser s') = timers (browser (afterStop s)).
Proof.
  cbn zeta. rewrite startSession_begin_spec. cbn zeta.
  destruct_session s. destruct env as [key ictx ires octx ores gain media sess].
  unfold failedWith, afterStop. cbn. destruct key; now repeat split.
Qed.

Lemma audio_frame now buf s x :
  x = s \/ x = synced now s \/ x = enqueued buf s \/ x = abandoned buf s ->
  devices (refs x) = devices (refs s) /\ same_devices (browser x) (browser s).
Proof.
  intros [->|[->|[->| ->]]]; destruct_session s; cbn; now repeat split.
Qed.

Lemma segment_frame t l :
  (forall ev, t <> Other ev) ->
  devices (refs (session (turn t l))) = devices (refs (session l)) /\
  same_devices (browser (session (turn t l))) (browser (session l)).
Proof.
  intros NO.
  assert (After : forall m x,
             devices (refs x) = devices (refs (session l)) /\
             same_devices (browser x) (browser (session l)) ->
             devices (refs (snd (handleInterrupted m x))) = devices (refs (session l)) /\
             same_devices (browser (snd (handleInterrupted m x))) (browser (session l))).
  { intros m x [D B].
    destruct (handleInterrupted_frame m x) as (_ & _ & _ & B' & D').
    split; [unfold devices in *; congruence|].
    eapply same_devices_trans; eauto. }
  set (dummy := {| ab_length := 0; ab_sampleRate := 1 |}).
  destruct t as [now m|i|ev]; [| |now destruct (NO ev)].
  - destruct (deliver_cases now m l) as [(p & Mp & E)|(x & X & E)]; rewrite E;
      cbn [session].
    + apply (audio_frame now dummy). auto.
    + apply After. apply (audio_frame now dummy). destruct X; auto.
  - destruct (settle_cases i l) as [[N E]|(p & x & L & X & E)]; rewrite E.
    + split; [reflexivity|apply same_devices_refl].
    + cbn [session]. apply After.
      destruct X as [->|(buf & D & [(G & C & ->)| ->])].
      * apply (audio_frame 0 dummy). auto.
      * apply (audio_frame 0 buf). auto.
      * apply (audio_frame 0 buf). auto.
Qed.

Lemma wiring_kept s x :
  devices (refs x) = devices (refs s) ->
  timers (browser x) = timers (browser s) ->
  timers_tracked s /\ capture_consistent s ->
  timers_tracked x /\ capture_consistent x.
Proof.
  intros D Tm W. apply devices_eq in D as (D1 & D2 & D3 & D4 & D5 & D6 & D7).
  unfold timers_tracked, capture_consistent in *. cbn zeta in *.
  now rewrite D1, D3, D4, D5, Tm.
Qed.

Lemma wiring_turn t l :
  timers_tracked (session l) /\ capture_consistent (session l) ->
  timers_tracked (session (turn t l)) /\ capture_consistent (session (turn t l)).
Proof.
  intros W. destruct t as [now m|i|ev].
  - destruct (segment_frame (Deliver now m) l) as [D B]; [discriminate|].
    apply (wiring_kept (session l)); [exact D|apply B|exact W].
  - destruct (segment_frame (Settle i) l) as [D B]; [discriminate|].
    apply (wiring_kept (session l)); [exact D|apply B|exact W].
  - cbn [turn session]. now apply wired_step.
Qed.

Lemma wiring_begin env s :
  timers_tracked s /\ capture_consistent s ->
  timers_tracked (snd (startSession_begin env s)) /\
  capture_consistent (snd (startSession_begin env s)).
Proof.
  intros [T _]. destruct (begin_frame env s) as (_ & _ & P & V & Tm).
  unfold timers_tracked, capture_consistent in *. cbn zeta.
  rewrite P, V, Tm. split.
  - destruct_session s. cbn in *. destruct vi as [id|]; [|exact T].
    destruct T as [sc ->]. apply filter_timer_self.
  - split; intros [? ?]; discriminate.
Qed.

Lemma wiring_resume st s :
  timers_tracked s /\ capture_consistent s ->
  timers_tracked (snd (startSession_resume st s)) /\
  capture_consistent (snd (startSession_resume st s)).
Proof.
  intros [T [C1 C2]].
  destruct (startSession_resume_frame st s) as (P & V & I & S & Tm & _).
  unfold timers_tracked, capture_consistent in *. cbn zeta.
  rewrite P, V, I, Tm. split; [exact T|]. split; [|exact C2].
  intros X. destruct (C1 X) as [Y Z]. split; [exact Y|].
  destruct S as [S|S]; [now rewrite S|exact S].
Qed.

Lemma wiring_tick sc d s :
  timers_tracked s /\ capture_consistent s ->
  timers_tracked (exec (onaudioprocess sc d) s) /\
  capture_consistent (exec (onaudioprocess sc d) s).
Proof.
  intros W. destruct (tick_frame sc d s) as (R & _ & Tm).
  apply (wiring_kept s); [now rewrite R|exact Tm|exact W].
Qed.

Lemma wiring_frame sc f s :
  timers_tracked s /\ capture_consistent s ->
  timers_tracked (exec (videoTick sc f) s) /\
  capture_consistent (exec (videoTick sc f) s).
Proof.
  intros W. destruct (frame_frame sc f s) as (R & _ & Tm).
  apply (wiring_kept s); [now rewrite R|exact Tm|exact W].
Qed.

(** X10.  However the awaits of [startSession] and [onmessage] interleave
    with the other callbacks, and whatever device callbacks still fire: the
    interval in [videoIntervalRef] is the only one running (none runs when
    the reference is empty), a processor is held only together with the
    input context and the capture stream, and a video interval only
    together with a processor. *)
Theorem reachable_capture_wiring (mvs : list Move) :
  let s := session (loop (moves mvs mounted)) in
  timers_tracked s /\ capture_consistent s.
Proof.
  cbn zeta.
  apply (moves_invariant (fun s => timers_tracked s /\ capture_consistent s)).
  - apply wiring_turn.
  - apply wiring_begin.
  - apply wiring_resume.
  - apply wiring_tick.
  - apply wiring_frame.
  - apply wired_initial.
Qed.

(* ------------------------------------------------------------------- *)
(** *** The cursor and the queue, segment by segment *)









End Worlds.

(* ===================================================================== *)
(** ** The live set, turn by turn *)

Section LiveSet.
Context `{AudioUtils}.

Lemma live_after m x :
  liveSet (snd (handleInterrupted m x)) = [] \/
  liveSet (snd (handleInterrupted m x)) = liveSet x.
Proof. destruct (handleInterrupted_joint m x) as [[L _]|[L _]]; auto. Qed.

Lemma live_step ev s :
  liveSet (step ev s) = [] \/ liveSet (step ev s) = liveSet s \/
  ((exists now m, ev = EvMessage now m) /\
   liveSet (step ev s) = Set_add (length (nodes (browser s))) (liveSet s)) \/
  (exists id, ev = EvEnded id /\ liveSet (step ev s) = Set_delete id (liveSet s)).
Proof.
  unfold step. destruct ev; cbn [handler].
  - left. apply startSession_live.
  - left. unfold exec. rewrite stopSession_spec. now destruct_session s.
  - right. left. unfold exec. destruct_session s. unfold onopen, startVideoStream,
      setInterval, clearInterval, setStatus. js.
    destruct cb; js; [|reflexivity].
    destruct ic; js; [|reflexivity]. destruct sr; js; [|reflexivity].
    destruct vi; js; reflexivity.
  - unfold exec, bind, gets.
    destruct (callbacks (browser s)); [|now right; left].
    destruct (onmessage_cases currentTime message s) as (x & E & C). rewrite E.
    destruct (live_after message x) as [L|L]; rewrite L; [now left|].
    destruct C as [->|[->|[buf [->| ->]]]].
    + now right; left.
    + right. left. now destruct_session s.
    + right. right. left. split; [eauto|]. now destruct_session s.
    + right. left. now destruct_session s.
  - unfold exec, bind, gets, onclose.
    destruct (callbacks (browser s)); [|now right; left].
    left. rewrite stopSession_spec. now destruct_session s.
  - unfold exec, bind, gets.
    destruct (callbacks (browser s)); [|now right; left].
    left. rewrite onerror_spec. now destruct_session s.
  - unfold exec, bind, gets.
    destruct (callbacks (browser s)); [|now right; left].
    left. rewrite onconnectfailed_spec. now destruct_session s.
  - right. left. unfold exec. destruct_session s.
    unfold onaudioprocess, setVolumeLevel, send. js.
    destruct pr as [[? [[] ?]]|]; js; try reflexivity.
    destruct sp; js; reflexivity.
  - right. left. unfold exec. destruct_session s. unfold videoTick, send. js.
    destruct (lookupTimer id tm) as [[? []]|]; js; try reflexivity.
    destruct frame; js; [|reflexivity].
    destruct sp; js; reflexivity.
  - right. right. right. exists source. split; [reflexivity|]. now destruct_session s.
  - right. left. now destruct_session s.
  - right. left. now destruct_session s.
  - right. left. now destruct_session s.
Qed.

(** X6.  The live set changes by one handle at a time or is emptied.  A
    turn of the event loop - a delivery, a continuation, or any other
    callback run whole - leaves the live set empty, or as it was, or with
    one handle added, or with one handle removed.  The handle added is
    that of the node just created, and only the continuation of a message
    handler (or a message handled whole) adds one; a single handle is
    removed only by the ended callback of that handle; a delivery up to
    its await adds nothing. *)
Theorem live_set_changes_one_handle_at_a_time (t : Turn) (l : Loop) :
  let s := session l in
  let s' := session (turn t l) in
  liveSet s' = [] \/ liveSet s' = liveSet s \/
  (((exists i, t = Settle i) \/ exists now m, t = Other (EvMessage now m)) /\
   liveSet s' = Set_add (length (nodes (browser s))) (liveSet s)) \/
  (exists id, t = Other (EvEnded id) /\ liveSet s' = Set_delete id (liveSet s)).
Proof.
  cbn zeta. destruct t as [now m|i|ev].
  - destruct (deliver_cases now m l) as [(p & Mp & E)|(x & X & E)]; rewrite E;
      cbn [session].
    + right. left. now destruct (session l) as [r [] b].
    + destruct (live_after m x) as [L|L]; rewrite L; [now left|].
      right. left. destruct X as [->| ->]; [reflexivity|].
      now destruct (session l) as [r [] b].
  - destruct (settle_cases i l) as [[N E]|(p & x & L & X & E)]; rewrite E.
    + now right; left.
    + cbn [session].
      destruct (live_after (p_message p) x) as [K|K]; rewrite K; [now left|].
      destruct X as [->|(buf & D & [(G & C & ->)| ->])].
      * now right; left.
      * right. right. left. split; [eauto|]. now destruct (session l) as [r [] b].
      * right. left. now destruct (session l) as [r [] b].
  - cbn [turn session].
    destruct (live_step ev (session l)) as [L|[L|[[(now & m & ->) L]|(id & -> & L)]]];
      eauto 10.
Qed.

End LiveSet.

(* ===================================================================== *)
(** ** Callbacks that fire after the teardown *)

Section Stragglers.
Context `{AudioUtils}.

(** X11.  After [stopSession], callbacks that still fire submit nothing
    and create no handle.  [onaudioprocess] does not consult any
    reference before metering: fired on a processor that was
    disconnected, an unmuted closure still publishes its volume reading
    over the zero the teardown set, and sends nothing; a muted one does
    nothing.  A video tick and an ended handle leave the session as it
    is.  A message - the channel is not closed by the teardown - leaves it
    as it is, but that its interruption flag sets the cursor to zero. *)
Theorem callbacks_after_teardown (s : Session) :
  let t := exec stopSession s in
  (forall sc w,
      exec (onaudioprocess sc w) t =
      if scope_isMuted sc then t else on_react (set_volumeLevel (volumeOf w)) t) /\
  (forall sc frame, exec (videoTick sc frame) t = t) /\
  (forall source, exec (onended source) t = t) /\
  (forall now m,
      exec (onmessage now m) t =
      if msg_interrupted m then on_refs (set_nextStartTimeRef 0) t else t).
Proof.
  cbn zeta. unfold exec. rewrite stopSession_spec. cbn [snd].
  split; [|split; [|split]].
  - intros [[] ?] w; destruct_session s;
      unfold onaudioprocess, setVolumeLevel, send, afterStop; js; reflexivity.
  - intros [? []] frame; destruct_session s; unfold videoTick, send, afterStop; js;
      [|reflexivity]. now destruct frame.
  - intros source. now destruct_session s.
  - intros now m.
    rewrite onmessage_skipped by (right; now destruct_session s).
    rewrite handleInterrupted_idle by now destruct_session s.
    reflexivity.
Qed.

End Stragglers.

(* ===================================================================== *)
(** ** More theorems on concrete sessions *)

Module MoreExamples.
Import Reference.

Lemma reference_sqrt_sound : sqrt_sound (H := utils).
Proof.
  unfold sqrt_sound. cbn [Math_sqrt utils utilsAt]. unfold sqrt.
  split; [|split].
  - intros x. unfold Qle. cbn. pose proof (Z.sqrt_nonneg (Qnum x * Z.pos (Qden x) * 1000000000000)). lia.
  - intros [a b] E. unfold Qeq in *. cbn in *.
    assert (a = 0%Z) by lia. subst. reflexivity.
  - intros [a b] E. unfold Qeq in *. cbn in *.
    assert (a = Z.pos b) by lia. subst.
    replace (Z.pos b * Z.pos b * 1000000000000)%Z
      with ((Z.pos b * 1000000) * (Z.pos b * 1000000))%Z by ring.
    rewrite Z.sqrt_square by lia. lia.
Qed.

Lemma failed_start_contexts_closed_by_next_teardown_witness :
  status (react (exec (startSession deniedEnv) playing)) = error /\
  inputAudioContextRef (refs (exec (startSession deniedEnv) playing)) = Some 21%nat /\
  closedContexts (browser (exec stopSession (exec (startSession deniedEnv) playing)))
    = closedContexts (browser (exec (startSession deniedEnv) playing)) ++ [21; 22]%nat.
Proof.
  destruct (failed_start_contexts_closed_by_next_teardown deniedEnv
              {| err_name := "NotAllowedError"; err_message := "Permission denied" |}
              playing) as (S & I & _ & _ & C & _);
    [reflexivity|reflexivity|reflexivity|reflexivity|].
  split; [exact S|]. split; [exact I|exact C].
Defined.

Lemma scheduled_handles_are_permanent_witness :
  nodes (browser playing) !! 0%nat
    = Some {| node_buffer := frames 3 24000; node_startedAt := Some 5;
              node_stopped := false |} /\
  exists n', nodes (browser (step (EvMessage 6 interruption) playing)) !! 0%nat = Some n' /\
             node_buffer n' = frames 3 24000 /\ node_startedAt n' = Some 5.
Proof.
  split; [reflexivity|].
  destruct (scheduled_handles_are_permanent (H := utils) (EvMessage 6 interruption)
              playing 0 {| node_buffer := frames 3 24000; node_startedAt := Some 5;
                           node_stopped := false |})
    as (n' & L & B & S & _); [reflexivity|].
  exists n'. split; [exact L|]. split; [exact B|exact S].
Defined.

Lemma channel_append_only_witness :
  sessionPromiseRef (refs (exec stopSession live)) = None /\
  outbox (browser (step (EvAudioProcess loud) (exec stopSession live)))
    = outbox (browser (exec stopSession live)).
Proof.
  split; [reflexivity|].
  apply (proj2 (channel_append_only (H := utils) (EvAudioProcess loud)
                  (exec stopSession live))).
  reflexivity.
Defined.

Lemma open_after_teardown_connects_nothing_witness :
  callbacks (browser live)
    = Some {| scope_isMuted := false; scope_isVideoEnabled := true |} /\
  status (react (step (EvOpen 7) (exec stopSession live))) = connected /\
  refs (step (EvOpen 7) (exec stopSession live)) = refs (exec stopSession live).
Proof.
  split; [reflexivity|].
  destruct (open_after_teardown_connects_nothing (H := utils)
              {| scope_isMuted := false; scope_isVideoEnabled := true |} 7 live)
    as (S & R & _); [reflexivity|].
  split; [exact S|exact R].
Defined.

Lemma published_volume_bounded_witness :
  loud <> [] /\
  0 <= volumeLevel (react (exec (onaudioprocess
         {| scope_isMuted := false; scope_isVideoEnabled := true |} loud) live)) /\
  volumeLevel (react (exec (onaudioprocess
         {| scope_isMuted := false; scope_isVideoEnabled := true |} loud) live)) == 1.
Proof.
  split; [discriminate|].
  destruct (published_volume_bounded (H := utils)
              {| scope_isMuted := false; scope_isVideoEnabled := true |} loud live
              reference_sqrt_sound) as (L & _ & _ & F);
    [discriminate|reflexivity|].
  split; [exact L|]. apply F. repeat constructor.
Defined.

Lemma overlapping_decodes_queue_in_settle_order_witness :
  nodes (browser (session (turns [Deliver 1 (chunk 3); Deliver 2 (chunk 6);
                                  Settle 1; Settle 0]
                                 {| session := live; awaiting := [] |})))
  = nodes (browser live)
      ++ [{| node_buffer := frames 6 24000;
             node_startedAt := Some (JsMath.max (JsMath.max (cursor live) 1) 2);
             node_stopped := false |};
          {| node_buffer := frames 3 24000;
             node_startedAt :=
               Some (JsMath.max (JsMath.max (cursor live) 1) 2 + ab_duration (frames 6 24000));
             node_stopped := false |}].
Proof.
  destruct (overlapping_decodes_queue_in_settle_order (H := utils)
              {| session := live; awaiting := [] |} 2 1 2 (chunk 3) (chunk 6)
              (frames 3 24000) (frames 6 24000)) as (_ & S & _);
    [reflexivity|reflexivity|reflexivity|reflexivity|reflexivity
    |unfold Qle; simpl; lia|].
  exact S.
Defined.

Lemma onended_removes_one_handle_witness :
  1%nat <> 0%nat /\
  (1%nat ∈ liveSet (exec (onended 0) (exec (onmessage 6 (chunk 6)) playing)) <->
   1%nat ∈ liveSet (exec (onmessage 6 (chunk 6)) playing)).
Proof.
  split; [discriminate|].
  apply (proj1 (proj2 (onended_removes_one_handle 0
                         (exec (onmessage 6 (chunk 6)) playing)))).
  discriminate.
Defined.



Lemma reset_runs_when_its_message_settles_witness :
  turns [Deliver 7 (chunk 3); Settle 0]
        {| session := exec (handleInterrupted interruption)
                           (on_refs (set_nextStartTimeRef 100) live);
           awaiting := [] |}
  = turns [Deliver 7 (chunk 3); Settle 0]
          {| session := exec (handleInterrupted interruption) live; awaiting := [] |} /\
  nodes (browser (exec (onmessage_resume (decoded 3))
                       (exec (handleInterrupted lastWords) playing))) !! 1%nat
    = Some {| node_buffer := frames 3 24000; node_startedAt := Some 0;
              node_stopped := false |} /\
  turns [Deliver 6 interruption; Deliver 7 (chunk 3); Settle 0]
        {| session := on_refs (set_nextStartTimeRef 100) live; awaiting := [] |}
  = turns [Deliver 6 interruption; Deliver 7 (chunk 3); Settle 0] idle /\
  nodes (browser (session (turns [Deliver 5 (chunk 3); Deliver 6 interruption; Settle 0]
                                 busy))) !! 1%nat
    = Some {| node_buffer := frames 3 24000; node_startedAt := Some 0;
              node_stopped := false |} /\
  nodes (browser (session
     (turns [Deliver (50001 # 10000) lastWords; Deliver (500011 # 100000) (chunk 3);
             Settle 1] busy)))
    = nodes (browser playing)
        ++ [{| node_buffer := frames 3 24000;
               node_startedAt :=
                 Some (JsMath.max (JsMath.max (cursor playing) (50001 # 10000))
                                  (500011 # 100000));
               node_stopped := false |}] /\
  cursor (session
     (turns [Deliver (50001 # 10000) lastWords; Deliver (500011 # 100000) (chunk 3);
             Settle 1; Settle 0] busy)) = 0.
Proof.
  destruct (reset_runs_when_its_message_settles (H := utils)) as (A & B & C & D & E).
  split.
  { apply (A interruption live 100 [] [Deliver 7 (chunk 3); Settle 0]); reflexivity. }
  split.
  { destruct (B lastWords playing (decoded 3) (frames 3 24000)) as (_ & _ & N & _);
      [reflexivity|reflexivity|exists 3%nat; reflexivity|reflexivity|reflexivity|].
    exact N. }
  split.
  { apply (C idle 100 6 [Deliver 7 (chunk 3); Settle 0]). reflexivity. }
  split.
  { apply (D busy 2%nat 5 6 (chunk 3) (frames 3 24000)); reflexivity. }
  destruct (E busy 2%nat (50001 # 10000) (500011 # 100000) lastWords (chunk 3)
              (frames 3 24000) (frames 3 24000)) as (N & _ & _ & K & _);
    [reflexivity|reflexivity|reflexivity|reflexivity|reflexivity
    |unfold Qle; simpl; lia|reflexivity|].
  split; [exact N|exact K].
Defined.

Lemma chunk_behind_audio_interruption_uses_old_cursor :
  msg_interrupted lastWords = true /\
  chunkOf 2 lastWords = Some (Normal (frames 3 24000)) /\
  (500011 # 100000) < cursor playing /\
  nodes (browser (session
     (turns [Deliver (50001 # 10000) lastWords; Deliver (500011 # 100000) (chunk 3);
             Settle 1] busy))) !! 1%nat
    = Some {| node_buffer := frames 3 24000; node_startedAt := Some (cursor playing);
              node_stopped := false |} /\
  ~ cursor playing == 0 /\
  ~ (forall l c now m ts,
        msg_interrupted m = true ->
        live_started (session l) = true ->
        turns (Deliver now m :: ts)
              {| session := on_refs (set_nextStartTimeRef c) (session l);
                 awaiting := awaiting l |}
        = turns (Deliver now m :: ts) l).
Proof.
  split; [reflexivity|]. split; [reflexivity|].
  split; [vm_compute; reflexivity|].
  split; [reflexivity|]. split; [vm_compute; discriminate|].
  intros C.
  pose proof (C idle 100 6 lastWords [Deliver 7 (chunk 3); Settle 1] eq_refl eq_refl) as X.
  apply (f_equal (fun l => nodes (browser (session l)) !! 0%nat)) in X.
  vm_compute in X. discriminate.
Qed.

Lemma startSession_await_by_await_witness :
  starting asking !! 0%nat = Some askingCall /\
  status (react (session (loop (moves [Run (Other EvStop); SettleStart 0] asking))))
    = disconnected /\
  sessionPromiseRef (refs (session (loop (moves [Run (Other EvStop); SettleStart 0] asking))))
    = Some 4%nat /\
  outputAudioContextRef (refs (session (loop (moves [Run (Other EvStop); SettleStart 0] asking))))
    = None /\
  starting resuming !! 0%nat = Some resumingCall /\
  status (react (session (loop (moves [Run (Other EvStop); SettleStart 0] resuming))))
    = error.
Proof.
  destruct (startSession_await_by_await (H := utils)) as (_ & B & C).
  split; [reflexivity|].
  destruct (B asking 0%nat askingCall {| stream_tracks := [10; 11]%nat |})
    as (S & _ & P & _ & _ & O & _); [reflexivity|reflexivity|reflexivity|].
  split; [exact S|]. split; [exact P|]. split; [exact O|].
  split; [reflexivity|].
  destruct (C resuming 0%nat resumingCall) as (S' & _);
    [reflexivity|reflexivity|reflexivity|].
  exact S'.
Defined.



End MoreExamples.
